(** * Marisol: phase-field / crystal-plasticity material models

    A shallow embedding of the material models of the Marisol MOOSE
    application and the properties established about them.

    MOOSE's [Real] is modelled by the mathematical reals [R]: rounding,
    overflow, infinities and NaN of IEEE doubles are outside the model.
    C++ integer expressions (such as the literal quotients [1/3] and [2/3])
    are evaluated in [Z] with truncating division and only then promoted
    to [Real], exactly as the compiler does.

    - [Tensor]: the fragment of libMesh/MOOSE [RealVectorValue],
      [RankTwoTensor] and [RankFourTensor] used by the models
      (LIBMESH_DIM = 3).
    - [Amor]: [LinearIsoElasticPFAmor::updateVar]
      (src/materials/LinearIsoElasticPFAmor.C).
    - [Polycrystal]:
      [ComputePolycrystalElasticityTensorCP::computeQpElasticityTensor].
    - [W0p]: the crystal-plasticity core declared by
      FiniteStrainCrystalPlasticityW0p.h.  Only the declarations of that
      class are available; its operations are modelled from the
      specification and marked as such.
    - [Example]: concrete inputs on which the models are run. *)

From Stdlib Require Import Reals Lra Lia ZArith List Psatz.
Import ListNotations.
Local Open Scope R_scope.

(* ================================================================== *)
(** * Tensors in three dimensions                                      *)
(* ================================================================== *)

Module Tensor.

(** Index of a spatial direction; [LIBMESH_DIM] is 3. *)
Inductive Dim : Set := D0 | D1 | D2.

(** The range [0 .. LIBMESH_DIM-1] of the [for] loops. *)
Definition LIBMESH_DIM : list Dim := [D0; D1; D2].

Definition Dim_eqb (i j : Dim) : bool :=
  match i, j with
  | D0, D0 | D1, D1 | D2, D2 => true
  | _, _ => false
  end.

(** [RealVectorValue]: three reals. *)
Record RealVectorValue : Set := vec { v0 : R; v1 : R; v2 : R }.

(** [RankTwoTensor]: three rows, [_vals[i][j]]. *)
Record RankTwoTensor : Set :=
  rank2 { row0 : RealVectorValue; row1 : RealVectorValue; row2 : RealVectorValue }.

(** [RankFourTensor], read through [operator()(i,j,k,l)]. *)
Definition RankFourTensor : Type := Dim -> Dim -> Dim -> Dim -> R.

Definition component (v : RealVectorValue) (i : Dim) : R :=
  match i with D0 => v0 v | D1 => v1 v | D2 => v2 v end.

Definition set_component (v : RealVectorValue) (i : Dim) (x : R) : RealVectorValue :=
  match i with
  | D0 => vec x (v1 v) (v2 v)
  | D1 => vec (v0 v) x (v2 v)
  | D2 => vec (v0 v) (v1 v) x
  end.

Definition row (T : RankTwoTensor) (i : Dim) : RealVectorValue :=
  match i with D0 => row0 T | D1 => row1 T | D2 => row2 T end.

(** [T(i,j)] read. *)
Definition entry (T : RankTwoTensor) (i j : Dim) : R := component (row T i) j.

(** [T(i,j) = x] write. *)
Definition assign (T : RankTwoTensor) (i j : Dim) (x : R) : RankTwoTensor :=
  match i with
  | D0 => rank2 (set_component (row0 T) j x) (row1 T) (row2 T)
  | D1 => rank2 (row0 T) (set_component (row1 T) j x) (row2 T)
  | D2 => rank2 (row0 T) (row1 T) (set_component (row2 T) j x)
  end.

Definition vtabulate (f : Dim -> R) : RealVectorValue := vec (f D0) (f D1) (f D2).

Definition tabulate (f : Dim -> Dim -> R) : RankTwoTensor :=
  rank2 (vtabulate (f D0)) (vtabulate (f D1)) (vtabulate (f D2)).

(** The default constructor of [RankTwoTensor] zero-initialises. *)
Definition zero : RankTwoTensor := tabulate (fun _ _ => 0).

Definition identity : RankTwoTensor :=
  tabulate (fun i j => if Dim_eqb i j then 1 else 0).

Definition vzero : RealVectorValue := vec 0 0 0.

Definition vadd (a b : RealVectorValue) : RealVectorValue :=
  vtabulate (fun i => component a i + component b i).

Definition vscale (a : RealVectorValue) (s : R) : RealVectorValue :=
  vtabulate (fun i => component a i * s).

Definition vdiv (a : RealVectorValue) (s : R) : RealVectorValue :=
  vtabulate (fun i => component a i / s).

Definition vdot (a b : RealVectorValue) : R :=
  v0 a * v0 b + v1 a * v1 b + v2 a * v2 b.

(** [A + B], [A - B], [-A]. *)
Definition add (A B : RankTwoTensor) : RankTwoTensor :=
  tabulate (fun i j => entry A i j + entry B i j).

Definition sub (A B : RankTwoTensor) : RankTwoTensor :=
  tabulate (fun i j => entry A i j - entry B i j).

Definition opp (A : RankTwoTensor) : RankTwoTensor :=
  tabulate (fun i j => - entry A i j).

(** [A * s] (tensor times scalar) and [s * A] (scalar times tensor). *)
Definition scale_r (A : RankTwoTensor) (s : R) : RankTwoTensor :=
  tabulate (fun i j => entry A i j * s).

Definition scale_l (s : R) (A : RankTwoTensor) : RankTwoTensor :=
  tabulate (fun i j => s * entry A i j).

Definition transpose (A : RankTwoTensor) : RankTwoTensor :=
  tabulate (fun i j => entry A j i).

(** [A * B], the matrix product. *)
Definition mult (A B : RankTwoTensor) : RankTwoTensor :=
  tabulate (fun i j =>
    entry A i D0 * entry B D0 j + entry A i D1 * entry B D1 j + entry A i D2 * entry B D2 j).

(** [A.doubleContraction(B)], the sum of [A(i,j) * B(i,j)]. *)
Definition doubleContraction (A B : RankTwoTensor) : R :=
  vdot (row0 A) (row0 B) + vdot (row1 A) (row1 B) + vdot (row2 A) (row2 B).

(** [A.det()]. *)
Definition det (A : RankTwoTensor) : R :=
  entry A D0 D0 * (entry A D1 D1 * entry A D2 D2 - entry A D1 D2 * entry A D2 D1)
  - entry A D0 D1 * (entry A D1 D0 * entry A D2 D2 - entry A D1 D2 * entry A D2 D0)
  + entry A D0 D2 * (entry A D1 D0 * entry A D2 D1 - entry A D1 D1 * entry A D2 D0).

(** Cyclic successor of an index, for cofactors. *)
Definition next (i : Dim) : Dim :=
  match i with D0 => D1 | D1 => D2 | D2 => D0 end.

(** Signed cofactor of [A(i,j)]. *)
Definition cofactor (A : RankTwoTensor) (i j : Dim) : R :=
  entry A (next i) (next j) * entry A (next (next i)) (next (next j))
  - entry A (next i) (next (next j)) * entry A (next (next i)) (next j).

(** [A.inverse()]: adjugate over determinant. *)
Definition inverse (A : RankTwoTensor) : RankTwoTensor :=
  tabulate (fun i j => cofactor A j i / det A).

(** [A.L2norm()]. *)
Definition L2norm (A : RankTwoTensor) : R := sqrt (doubleContraction A A).

(** The outer product [a (x) b]. *)
Definition outer (a b : RealVectorValue) : RankTwoTensor :=
  tabulate (fun i j => component a i * component b j).

(** Contraction [C : E] of a rank-four with a rank-two tensor. *)
Definition contract4 (C : RankFourTensor) (E : RankTwoTensor) : RankTwoTensor :=
  tabulate (fun i j =>
    fold_left (fun acc k =>
      fold_left (fun acc l => acc + C i j k l * entry E k l) LIBMESH_DIM acc)
      LIBMESH_DIM 0).

End Tensor.

(* ================================================================== *)
(** * LinearIsoElasticPFAmor                                           *)
(* ================================================================== *)

Module Amor.
Import Tensor.

(** C++ [a / b] on [int] operands truncates toward zero. *)
Definition int_div (a b : Z) : Z := Z.quot a b.

(** [Utility::pow<2>]. *)
Definition pow2 (x : R) : R := x * x.

(** [RankTwoTensor::symmetricEigenvaluesEigenvectors] belongs to the MOOSE
    framework: it is taken as a parameter returning [_eigval] and [_eigvec]
    (eigenvectors stored as columns). *)
Definition EigenSolver : Type := RankTwoTensor -> RealVectorValue * RankTwoTensor.

(** The locals of [updateVar] together with the member [_epos] and the
    four material properties it writes at the quadrature point. *)
Record UpdateVar : Type := mkUpdateVar {
  lambda : R;
  mu : R;
  Kb : R;
  xfac : R;
  etr : R;
  etrpos : R;
  etrneg : R;
  total_strain : RankTwoTensor;
  vol_strain : RankTwoTensor;
  vol_strain_pos : RankTwoTensor;
  vol_strain_neg : RankTwoTensor;
  dev_strain : RankTwoTensor;
  stress0pos : RankTwoTensor;
  stress0neg : RankTwoTensor;
  stress : RankTwoTensor;
  epos : RealVectorValue;
  G0_pos : R;
  dG0_pos_dstrain : RankTwoTensor;
  dstress_dc : RankTwoTensor
}.

(** Lines 54-57: [_etens[i](j,k) = _eigvec(j,i) * _eigvec(k,i)]; every
    entry of every [_etens[i]] is overwritten. *)
Definition etens (eigvec : RankTwoTensor) (i : Dim) : RankTwoTensor :=
  tabulate (fun j k => entry eigvec j i * entry eigvec k i).

(** Lines 59-61: [etr += _eigval[i]]. *)
Definition trace_loop (eigval : RealVectorValue) : R :=
  fold_left (fun etr i => etr + component eigval i) LIBMESH_DIM 0.

(** Lines 66-67: [total_strain += _etens[i] * _eigval[i]]. *)
Definition total_strain_loop (eigval : RealVectorValue) (eigvec : RankTwoTensor)
  : RankTwoTensor :=
  fold_left (fun acc i => add acc (scale_r (etens eigvec i) (component eigval i)))
            LIBMESH_DIM zero.

(** Lines 69-75: the diagonal fill of the three volumetric tensors; the
    factor [1/3] is an [int] quotient. *)
Definition vol_loop (etr etrpos etrneg : R)
  : RankTwoTensor * RankTwoTensor * RankTwoTensor :=
  fold_left (fun st i =>
    fold_left (fun st j =>
      let '(vol, volpos, volneg) := st in
      if Dim_eqb i j
      then (assign vol i j (IZR (int_div 1 3) * etr),
            assign volpos i j (IZR (int_div 1 3) * etrpos),
            assign volneg i j (IZR (int_div 1 3) * etrneg))
      else st) LIBMESH_DIM st)
    LIBMESH_DIM (zero, zero, zero).

(** Lines 88-92: [val += dev_strain(i,j) * dev_strain(j,i)], then
    [val *= mu]. *)
Definition val_loop (dev : RankTwoTensor) : R :=
  fold_left (fun val i =>
    fold_left (fun val j => val + entry dev i j * entry dev j i) LIBMESH_DIM val)
    LIBMESH_DIM 0.

(** [LinearIsoElasticPFAmor::updateVar] at one quadrature point. *)
Definition updateVar (solver : EigenSolver) (elasticity_tensor : RankFourTensor)
    (kdamage : R) (mechanical_strain : RankTwoTensor) (c : R) : UpdateVar :=
  let lambda := elasticity_tensor D0 D0 D1 D1 in
  let mu := elasticity_tensor D0 D1 D0 D1 in
  let Kb := lambda + IZR (int_div 2 3) * mu in
  let xfac := pow2 (1 - c) + kdamage in
  let '(eigval, eigvec) := solver mechanical_strain in
  let etr := trace_loop eigval in
  let etrpos := (Rabs etr + etr) / 2 in
  let etrneg := (Rabs etr - etr) / 2 in
  let total_strain := total_strain_loop eigval eigvec in
  let '(vol_strain, vol_strain_pos, vol_strain_neg) := vol_loop etr etrpos etrneg in
  let dev_strain := sub total_strain vol_strain in
  let stress0pos :=
    add (scale_l (3 * Kb) vol_strain_pos) (scale_l (2 * mu) dev_strain) in
  let stress0neg := scale_l (3 * Kb) vol_strain_neg in
  let stress := sub (scale_r stress0pos xfac) stress0neg in
  (* lines 85-86: [_epos[i] = (std::abs(_eigval[i]) + _eigval[i]) / 2.0] *)
  let epos := vtabulate (fun i => (Rabs (component eigval i) + component eigval i) / 2) in
  let val := val_loop dev_strain * mu in
  {| lambda := lambda; mu := mu; Kb := Kb; xfac := xfac; etr := etr; etrpos := etrpos; etrneg := etrneg;
     total_strain := total_strain;
     vol_strain := vol_strain;
     vol_strain_pos := vol_strain_pos;
     vol_strain_neg := vol_strain_neg;
     dev_strain := dev_strain;
     stress0pos := stress0pos;
     stress0neg := stress0neg;
     stress := stress;
     epos := epos;
     G0_pos := Kb * pow2 etrpos / 2 + val;
     dG0_pos_dstrain := stress0pos;
     dstress_dc := scale_r (opp stress0pos) (2 * (1 - c)) |}.

(** What the framework's eigen-solver guarantees on a symmetric tensor,
    as far as [updateVar] relies on it: the spectral sum rebuilds the
    tensor. *)
Definition spectral (solver : EigenSolver) (E : RankTwoTensor) : Prop :=
  total_strain_loop (fst (solver E)) (snd (solver E)) = E.

End Amor.

(* ================================================================== *)
(** * ComputePolycrystalElasticityTensorCP                             *)
(* ================================================================== *)

Module Polycrystal.
Import Tensor.

Definition zero4 : RankFourTensor := fun _ _ _ _ => 0.

Definition add4 (A B : RankFourTensor) : RankFourTensor :=
  fun i j k l => A i j k l + B i j k l.

Definition sub4 (A B : RankFourTensor) : RankFourTensor :=
  fun i j k l => A i j k l - B i j k l.

Definition scale4 (A : RankFourTensor) (s : R) : RankFourTensor :=
  fun i j k l => A i j k l * s.

Definition div4 (A : RankFourTensor) (s : R) : RankFourTensor :=
  fun i j k l => A i j k l / s.

(** [const Real tol = 1.0e-10]. *)
Definition tol : R := 1 / 10 ^ 10.

(** Interpolation factor [(1 + sin(pi * (v - 0.5))) / 2]. *)
Definition interpolation (v : R) : R := (1 + sin (PI * (v - 1 / 2))) / 2.

(** [pi * cos(pi * (v - 0.5)) / 2]. *)
Definition dinterpolation (v : R) : R := PI * cos (PI * (v - 1 / 2)) / 2.

(** What [computeQpElasticityTensor] leaves at the quadrature point,
    together with the two values of [sum_h] it divides by. *)
Record QpElasticity : Type := mkQpElasticity {
  elasticity_tensor : RankFourTensor;
  elasticity_divisor : R;
  angle2 : RealVectorValue;
  euler_divisor : R;
  crysrot : RankTwoTensor;
  D_elastic_tensor : nat -> RankFourTensor
}.

Section ComputeQp.

(** Provided by the framework's grain tracker and configuration:
    [FeatureFloodCount::invalid_id], [_grain_tracker.getData],
    [RealVectorValue(_grain_tracker_crysrot.getData(id))], the
    [RotationTensor] constructor, the coupled order parameters
    the values of [_vals] at [_qp], and the scale constants. *)
Variable invalid_id : N.
Variable getData : N -> RankFourTensor.
Variable getEuler : N -> RealVectorValue.
Variable RotationTensor : RealVectorValue -> RankTwoTensor.
Variable vals : nat -> R.
Variables (JtoeV length_scale pressure_scale : R).

(** [op_index] paired with [op_to_grains[op_index]], in loop order. *)
Definition indexed (op_to_grains : list N) : list (nat * N) :=
  combine (seq 0 (length op_to_grains)) op_to_grains.

(** Lines 78-90: accumulate the weighted grain tensors and [sum_h],
    skipping invalid grain ids. *)
Definition elasticity_loop (op_to_grains : list N) : RankFourTensor * R :=
  fold_left (fun st og =>
      let '(C, sum_h) := st in
      let '(op_index, grain_id) := og in
      if N.eqb grain_id invalid_id then st
      else
        let h := interpolation (vals op_index) in
        (add4 C (scale4 (getData grain_id) h), sum_h + h))
    (indexed op_to_grains) (zero4, 0).

(** Lines 98-113: the same accumulation for the Euler angles, with
    [sum_h] restarted at 0. *)
Definition euler_loop (op_to_grains_euler : list N) : RealVectorValue * R :=
  fold_left (fun st og =>
      let '(a2, sum_h) := st in
      let '(op_index_euler, grain_id_euler) := og in
      if N.eqb grain_id_euler invalid_id then st
      else
        let h := interpolation (vals op_index_euler) in
        (vadd a2 (vscale (getEuler grain_id_euler) h), sum_h + h))
    (indexed op_to_grains_euler) (vzero, 0).

(** Lines 125-141: derivative of the elasticity tensor with respect to
    each order parameter; [sum_h] is the value left by line 115. *)
Definition derivative_loop (op_to_grains : list N) (Cqp : RankFourTensor) (sum_h : R)
  : nat -> RankFourTensor :=
  fold_left (fun D og =>
      let '(op_index, grain_id) := og in
      if N.eqb grain_id invalid_id then D
      else
        let dhdopi := dinterpolation (vals op_index) in
        let C_deriv := div4 (scale4 (sub4 (getData grain_id) Cqp) dhdopi) sum_h in
        let C_deriv :=
          scale4 C_deriv (JtoeV * (length_scale * length_scale * length_scale) * pressure_scale) in
        fun op => if Nat.eqb op op_index then C_deriv else D op)
    (indexed op_to_grains) (fun _ => zero4).

(** [ComputePolycrystalElasticityTensorCP::computeQpElasticityTensor]. *)
Definition computeQpElasticityTensor (op_to_grains op_to_grains_euler : list N)
  : QpElasticity :=
  let '(C, sum_h) := elasticity_loop op_to_grains in
  let sum_h := Rmax sum_h tol in
  let Cqp := div4 C sum_h in
  let elasticity_divisor := sum_h in
  let '(a2, sum_h) := euler_loop op_to_grains_euler in
  let sum_h := Rmax sum_h tol in
  let a2 := vdiv a2 sum_h in
  {| elasticity_tensor := Cqp;
     elasticity_divisor := elasticity_divisor;
     angle2 := a2;
     euler_divisor := sum_h;
     crysrot := transpose (RotationTensor a2);
     D_elastic_tensor := derivative_loop op_to_grains Cqp sum_h |}.

End ComputeQp.

End Polycrystal.

(* ================================================================== *)
(** * FiniteStrainCrystalPlasticityW0p                                 *)
(* ================================================================== *)

(** The class is available through its header only: the member
    functions [preSolveStatevar], [solveStatevar], [postSolveStatevar],
    [update_energies], [calcResidual] and [getSlipIncrements] and the
    members [_C0], [_C1], [_W0e], [_W0p], [_W0p_old] are declared there,
    their bodies are not.  Every definition of this module is therefore
    modelled from the specification (sections 3, 4 and 7). *)
Module W0p.
Import Tensor.

(** Modelled from the spec: the status a point solve reports to its
    caller (section 7); the bodies that raise them are missing. *)
Inductive Status (A : Type) : Type :=
| Accepted (a : A)
| NonConvergence
| IllConditionedTangent
| InvalidState.

Arguments Accepted {A} a.
Arguments NonConvergence {A}.
Arguments IllConditionedTangent {A}.
Arguments InvalidState {A}.

(** Modelled from the spec: a slip system, unit slip direction and unit
    slip-plane normal (section 3); its declaration is missing. *)
Record SlipSystem : Set := mkSlipSystem {
  direction : RealVectorValue;
  normal : RealVectorValue
}.

(** Modelled from the spec: a fixed-size array indexed by slip-system id
    (section 9); only indices below [nss] are meaningful. *)
Definition SlipArray : Type := nat -> R.

(** Modelled from the spec: the read-only model parameters (section 5
    and 6): the viscosity coefficients [_C0] and [_C1] of the header, the
    reference rate and exponent of the power-law flow rule, the solver
    tolerances and the iteration budgets. *)
Record Params : Type := mkParams {
  C0 : R;
  C1 : R;
  gamma0 : R;
  flow_exponent : R;
  rtol : R;
  abs_tol : R;
  gtol : R;
  maxiter : nat;
  maxiterg : nat
}.

(** Modelled from the spec (section 8): the small fixed tolerance on the
    determinant of the plastic deformation gradient, 1e-6. *)
Definition det_tol : R := 1 / 10 ^ 6.

(** Modelled from the spec: the persisted per-point state (section 3),
    one snapshot: plastic deformation gradient, slip resistances, the
    energies [_W0e] and [_W0p]. *)
Record PointState : Type := mkPointState {
  Fp : RankTwoTensor;
  gss : SlipArray;
  W0e : R;
  W0p : R
}.

(** Modelled from the spec: everything shared and read-only during a
    solve (section 5 and 6): parameters, slip-system table, elasticity
    tensor, the hardening law [hardening_rate resistances slip_rates] of
    section 4.3, the Newton correction of section 4.2, which yields no
    stress when the tangent is singular, and what the mesh and kinematics
    collaborators supply for the viscosity terms: characteristic element
    length, wave speed, and the volumetric strain rate of a step (of the
    total deformation gradient, the time increment and the old snapshot).
    The bodies of the hardening law, of the tangent and of the volumetric
    strain rate are missing and the specification leaves them open. *)
Record Model : Type := mkModel {
  params : Params;
  nss : nat;
  slip_systems : nat -> SlipSystem;
  elasticity : RankFourTensor;
  hardening_rate : SlipArray -> SlipArray -> SlipArray;
  newton_update : RankTwoTensor -> SlipArray -> RankTwoTensor -> option RankTwoTensor;
  char_length : R;
  wave_speed : R;
  volumetric_strain_rate : RankTwoTensor -> R -> PointState -> R
}.

(** Modelled from the spec: what [calcResidual] produces for a candidate
    stress (section 4.2). *)
Record Residual : Type := mkResidual {
  tau : SlipArray;
  slip_incr : SlipArray;
  Fp_trial : RankTwoTensor;
  Ee : RankTwoTensor;
  resid : RankTwoTensor
}.

(** Modelled from the spec: the iterate threaded through the outer solve
    (section 3 and 9). *)
Record Iterate : Type := mkIterate {
  it_stress : RankTwoTensor;
  it_gss : SlipArray;
  it_residual : Residual;
  it_rnorm0 : R
}.

(** Modelled from the spec: the Schmid tensor, the symmetric outer
    product of slip direction and normal (glossary). *)
Definition schmid (sys : SlipSystem) : RankTwoTensor :=
  scale_l (1 / 2) (add (outer (direction sys) (normal sys))
                       (outer (normal sys) (direction sys))).

(** Modelled from the spec: sign of the resolved shear stress. *)
Definition sign (x : R) : R :=
  if Rlt_dec x 0 then -1 else if Rlt_dec 0 x then 1 else 0.

(** Modelled from the spec: [x] to the power [n] for [0 <= x], with the
    value 0 at [x = 0]. *)
Definition power (x n : R) : R :=
  if Req_dec_T x 0 then 0 else Rpower x n.

(** Modelled from the spec: the largest magnitude among the first [n]
    entries. *)
Definition norm_inf (n : nat) (v : SlipArray) : R :=
  fold_left (fun m a => Rmax m (Rabs (v a))) (seq 0 n) 0.

(** Modelled from the spec: the sum of the first [n] entries. *)
Definition sum_over (n : nat) (v : SlipArray) : R :=
  fold_left (fun acc a => acc + v a) (seq 0 n) 0.

(** Modelled from the spec: "residual fails to decrease" (section 7). *)
Definition diverged (prev : option R) (r : R) : bool :=
  match prev with
  | Some r' => if Rle_dec r' r then true else false
  | None => false
  end.

(** Modelled from the spec: the Green-Lagrange strain of an elastic
    deformation gradient (section 4.1). *)
Definition green_lagrange (Fe : RankTwoTensor) : RankTwoTensor :=
  scale_l (1 / 2) (sub (mult (transpose Fe) Fe) identity).

(** Modelled from the spec (section 4.5): the Von Neumann pressure,
    coefficient [C0], proportional to the square of characteristic length
    times volumetric strain rate, active when the rate is compressive
    (negative). *)
Definition von_neumann (p : Params) (Le rate : R) : R :=
  if Rlt_dec rate 0 then C0 p * (Le * rate) ^ 2 else 0.

(** Modelled from the spec (section 4.5): the Landshoff pressure,
    coefficient [C1], proportional to characteristic length times wave
    speed times the magnitude of the volumetric strain rate, active only
    under compression. *)
Definition landshoff (p : Params) (Le cs rate : R) : R :=
  if Rlt_dec rate 0 then C1 p * (Le * cs * Rabs rate) else 0.

Section Solve.

(** The shared model, and the inputs of one step at one point: total
    deformation gradient, time increment, and the "old" snapshot. *)
Variable M : Model.
Variable F : RankTwoTensor.
Variable dt : R.
Variable old : PointState.

(** Modelled from the spec (section 4.4): resolved shear stress, the
    double contraction of the stress with the Schmid tensor. *)
Definition resolved_shear_stress (S : RankTwoTensor) : SlipArray :=
  fun a => doubleContraction S (schmid (slip_systems M a)).

(** Modelled from the spec (section 4.4): the power-law flow rule,
    parameterized by the current resistance [g]. *)
Definition slip_rate (tau_a g_a : R) : R :=
  gamma0 (params M) * power (Rabs (tau_a / g_a)) (flow_exponent (params M)) * sign tau_a.

(** Modelled from the spec (section 4.4): the slip rate of every system
    for a stress and a resistance guess. *)
Definition slip_rates (S : RankTwoTensor) (g : SlipArray) : SlipArray :=
  fun a => slip_rate (resolved_shear_stress S a) (g a).

(** Modelled from the spec (section 4.4): body of [getSlipIncrements],
    slip rate times the time increment. *)
Definition getSlipIncrements (S : RankTwoTensor) (g : SlipArray) : SlipArray :=
  fun a => slip_rates S g a * dt.

(** Modelled from the spec (section 4.3): the right-hand side of the
    backward-Euler update, [resistance_old + dt * hardening_rate]. *)
Definition backward_euler (S : RankTwoTensor) (g : SlipArray) : SlipArray :=
  fun a => gss old a + dt * hardening_rate M g (slip_rates S g) a.

(** Modelled from the spec (section 4.3): the inner residual, the defect
    of [g] in the implicit equation, in the maximum norm. *)
Definition statevar_residual (S : RankTwoTensor) (g : SlipArray) : R :=
  norm_inf (nss M) (fun a => g a - backward_euler S g a).

(** Modelled from the spec (section 4.3 and 7): the local fixed-point
    iteration on the resistances, with its iteration budget and the
    divergence test. *)
Fixpoint statevar_loop (fuel : nat) (prev : option R) (S : RankTwoTensor)
    (g : SlipArray) : Status SlipArray :=
  match fuel with
  | O => NonConvergence
  | Datatypes.S fuel' =>
    let r := statevar_residual S g in
    if Rlt_dec r (gtol (params M)) then Accepted g
    else if diverged prev r then NonConvergence
    else statevar_loop fuel' (Some r) S (backward_euler S g)
  end.

(** Modelled from the spec (section 4.2): body of [preSolveStatevar],
    the trial resistances start from the previous converged values. *)
Definition preSolveStatevar : SlipArray := gss old.

(** Modelled from the spec (section 4.3): body of [solveStatevar]. *)
Definition solveStatevar (S : RankTwoTensor) (g : SlipArray) : Status SlipArray :=
  statevar_loop (maxiterg (params M)) None S g.

(** Modelled from the spec (section 4.4): the dyad of slip direction and
    slip-plane normal along which a system shears. *)
Definition slip_dyad (a : nat) : RankTwoTensor :=
  outer (direction (slip_systems M a)) (normal (slip_systems M a)).

(** Modelled from the spec (section 4.4): the plastic velocity-gradient
    increment assembled from the shear increments. *)
Definition plastic_increment (dgamma : SlipArray) : RankTwoTensor :=
  fold_left (fun L a => add L (scale_l (dgamma a) (slip_dyad a)))
            (seq 0 (nss M)) zero.

(** Modelled from the spec (section 4.2): body of [calcResidual]: slip
    increments, backward-Euler plastic deformation gradient, implied
    elastic strain, and the residual [S - C : Ee]. *)
Definition calcResidual (S : RankTwoTensor) (g : SlipArray) : Residual :=
  let dgamma := getSlipIncrements S g in
  let Fp' := mult (inverse (sub identity (plastic_increment dgamma))) (Fp old) in
  let Fe := mult F (inverse Fp') in
  let Ee := green_lagrange Fe in
  {| tau := resolved_shear_stress S;
     slip_incr := dgamma;
     Fp_trial := Fp';
     Ee := Ee;
     resid := sub S (contract4 (elasticity M) Ee) |}.

(** Modelled from the spec (section 4.2): the convergence test, relative
    norm below [rtol] or absolute norm below the floor [abs_tol]. *)
Definition converged (rnorm rnorm0 : R) : bool :=
  if Rlt_dec rnorm (rtol (params M) * rnorm0) then true
  else if Rlt_dec rnorm (abs_tol (params M)) then true else false.

(** Modelled from the spec (section 4.2 and 7): the outer Newton loop.
    At each iterate the internal variables are re-equilibrated first,
    then the residual is evaluated; the second component counts the
    outer iterations performed. *)
Fixpoint stress_loop (fuel iter : nat) (rnorm0 prev : option R)
    (S : RankTwoTensor) (g : SlipArray) : Status Iterate * nat :=
  match fuel with
  | O => (NonConvergence, iter)
  | Datatypes.S fuel' =>
    match solveStatevar S g with
    | Accepted g' =>
      let res := calcResidual S g' in
      let rnorm := L2norm (resid res) in
      let r0 := match rnorm0 with Some r => r | None => rnorm end in
      if converged rnorm r0 then (Accepted (mkIterate S g' res r0), Datatypes.S iter)
      else if diverged prev rnorm then (NonConvergence, Datatypes.S iter)
      else
        match newton_update M S g' (resid res) with
        | Some S' => stress_loop fuel' (Datatypes.S iter) (Some r0) (Some rnorm) S' g'
        | None => (IllConditionedTangent, Datatypes.S iter)
        end
    | NonConvergence => (NonConvergence, Datatypes.S iter)
    | IllConditionedTangent => (IllConditionedTangent, Datatypes.S iter)
    | InvalidState => (InvalidState, Datatypes.S iter)
    end
  end.

(** Modelled from the spec (section 4.1): the kinematic predictor, the
    trial stress from the trial elastic deformation gradient. *)
Definition kinematic_predictor : RankTwoTensor :=
  contract4 (elasticity M) (green_lagrange (mult F (inverse (Fp old)))).

(** Modelled from the spec (section 2): predictor, then the outer
    solve, run once with the configured budget. *)
Definition solveStress : Status Iterate * nat :=
  stress_loop (maxiter (params M)) 0 None None kinematic_predictor preSolveStatevar.

(** Modelled from the spec (section 4.5): incremental plastic work, the
    sum over slip systems of resolved shear stress times shear
    increment. *)
Definition plastic_work_increment (res : Residual) : R :=
  sum_over (nss M) (fun a => tau res a * slip_incr res a).

(** Modelled from the spec (section 4.5): elastic strain energy density
    of the converged elastic strain. *)
Definition elastic_energy (res : Residual) : R :=
  doubleContraction (Ee res) (contract4 (elasticity M) (Ee res)) / 2.

(** Modelled from the spec (section 4.5): the viscosity pressure of the
    step, the sum of the Von Neumann and the Landshoff term at the
    step's volumetric strain rate. *)
Definition viscosity_pressure : R :=
  von_neumann (params M) (char_length M) (volumetric_strain_rate M F dt old)
  + landshoff (params M) (char_length M) (wave_speed M) (volumetric_strain_rate M F dt old).

(** Modelled from the spec (section 4.5): the dissipation increment the
    viscosity terms contribute to the energy total, the work of the
    viscosity pressure on the volumetric compression of the step
    (magnitude of the volumetric strain rate times the time increment). *)
Definition viscous_dissipation_increment : R :=
  viscosity_pressure * (Rabs (volumetric_strain_rate M F dt old) * dt).

(** Modelled from the spec (section 4.2): body of [postSolveStatevar],
    commits the final resistances and the plastic deformation gradient;
    the energies are written by [update_energies]. *)
Definition postSolveStatevar (it : Iterate) : PointState :=
  {| Fp := Fp_trial (it_residual it);
     gss := it_gss it;
     W0e := W0e old;
     W0p := W0p old |}.

(** Modelled from the spec (section 4.5): body of [update_energies]:
    [_W0e] is a function of the current elastic strain, [_W0p] is
    [_W0p_old] plus the incremental plastic work plus the dissipation
    increment of the viscosity terms (the header keeps no other
    accumulated energy). *)
Definition update_energies (it : Iterate) (st : PointState) : PointState :=
  {| Fp := Fp st;
     gss := gss st;
     W0e := elastic_energy (it_residual it);
     W0p := W0p old
            + (plastic_work_increment (it_residual it) + viscous_dissipation_increment) |}.

(** Modelled from the spec (section 7): [InvalidState], the determinant
    of the plastic deformation gradient is outside tolerance of 1. *)
Definition isochoric (A : RankTwoTensor) : bool :=
  if Rle_dec (Rabs (det A - 1)) det_tol then true else false.

(** Modelled from the spec (section 2): one point, one step: on outer
    convergence the state is committed and the energies accounted;
    every failure is handed to the caller as a status. *)
Definition computeQpStress : Status PointState :=
  match fst solveStress with
  | Accepted it =>
    if isochoric (Fp_trial (it_residual it))
    then Accepted (update_energies it (postSolveStatevar it))
    else InvalidState
  | NonConvergence => NonConvergence
  | IllConditionedTangent => IllConditionedTangent
  | InvalidState => InvalidState
  end.

End Solve.


End W0p.

(* ================================================================== *)
(** * LinearIsoElasticPFAmor::computeQpStress                          *)
(* ================================================================== *)

Module AmorQp.
Import Tensor Amor.

(** [LinearIsoElasticPFAmor::updateJacobian]:
    [_Jacobian_mult[_qp] = _elasticity_tensor[_qp]]. *)
Definition updateJacobian (elasticity_tensor : RankFourTensor) : RankFourTensor :=
  elasticity_tensor.

(** What [computeQpStress] leaves at the quadrature point: the result of
    [updateVar] and [_Jacobian_mult]. *)
Record QpStress : Type := mkQpStress {
  var : UpdateVar;
  Jacobian_mult : RankFourTensor
}.

(** [LinearIsoElasticPFAmor::computeQpStress]: [updateVar()] then
    [updateJacobian()]. *)
Definition computeQpStress (solver : EigenSolver) (elasticity_tensor : RankFourTensor)
    (kdamage : R) (mechanical_strain : RankTwoTensor) (c : R) : QpStress :=
  {| var := updateVar solver elasticity_tensor kdamage mechanical_strain c;
     Jacobian_mult := updateJacobian elasticity_tensor |}.

(** Vocabulary for the statements below. *)

(** [T(i,j) = T(j,i)]. *)
Definition symmetric (T : RankTwoTensor) : Prop :=
  forall i j, entry T i j = entry T j i.

(** The columns of [V] are orthonormal. *)
Definition orthonormal_columns (V : RankTwoTensor) : Prop :=
  forall a b,
    entry V D0 a * entry V D0 b + entry V D1 a * entry V D1 b + entry V D2 a * entry V D2 b
    = if Dim_eqb a b then 1 else 0.

Definition trace (T : RankTwoTensor) : R :=
  entry T D0 D0 + entry T D1 D1 + entry T D2 D2.

Definition delta (i j : Dim) : R := if Dim_eqb i j then 1 else 0.

(** The isotropic elasticity tensor with Lame constants [lam] and [m],
    the case the comment "Isotropic elasticity is assumed" refers to. *)
Definition isotropic (lam m : R) : RankFourTensor :=
  fun i j k l => lam * (delta i j * delta k l)
                 + m * (delta i k * delta j l + delta i l * delta j k).

End AmorQp.

(* ================================================================== *)
(** * Weighted sums of the polycrystal interpolation                   *)
(* ================================================================== *)

(** Vocabulary for the statements about [computeQpElasticityTensor]: the
    sums its loops accumulate, written by recursion on the feature
    vector. *)
Module PolycrystalSums.
Import Tensor Polycrystal.

Section Sums.

Variable invalid_id : N.
Variable vals : nat -> R.

(** The weight of order parameter [op_index] holding grain [grain_id]:
    nothing for an invalid grain id. *)
Definition weight (op_index : nat) (grain_id : N) : R :=
  if N.eqb grain_id invalid_id then 0 else interpolation (vals op_index).

(** Sum of the weights of a feature vector whose first entry belongs to
    order parameter [n]. *)
Fixpoint weight_sum (n : nat) (grains : list N) : R :=
  match grains with
  | [] => 0
  | g :: rest => weight n g + weight_sum (S n) rest
  end.

(** Sum of a per-grain quantity [f] weighted the same way. *)
Fixpoint weighted_sum (f : N -> R) (n : nat) (grains : list N) : R :=
  match grains with
  | [] => 0
  | g :: rest => f g * weight n g + weighted_sum f (S n) rest
  end.

End Sums.

End PolycrystalSums.

(* ================================================================== *)
(** * Concrete inputs                                                  *)
(* ================================================================== *)

(** Inputs on which the models are run further below. *)
Module Example.
Import Tensor W0p.

(** A purely compressive strain with principal values -1, -2, -3, the
    matching eigen-decomposition, and unit Lame constants. *)
Definition compressive_strain : RankTwoTensor :=
  tabulate (fun i j =>
    match i, j with
    | D0, D0 => -1
    | D1, D1 => -2
    | D2, D2 => -3
    | _, _ => 0
    end).

Definition compressive_solver : Amor.EigenSolver :=
  fun _ => (vec (-1) (-2) (-3), identity).

Definition unit_moduli : RankFourTensor := fun _ _ _ _ => 1.


(** One slip system shearing along x on the plane normal to y. *)
Definition system0 : SlipSystem := mkSlipSystem (vec 1 0 0) (vec 0 1 0).

(** The rank-four identity: [C : E = E]. *)
Definition identity4 : RankFourTensor :=
  fun i j k l => if (Dim_eqb i k && Dim_eqb j l)%bool then 1 else 0.

Definition params_with (rel abs : R) : Params :=
  {| C0 := 1; C1 := 1; gamma0 := 1; flow_exponent := 1;
     rtol := rel; abs_tol := abs; gtol := 1 / 5;
     maxiter := 3; maxiterg := 3 |}.

(** A single-slip model with linear flow rule, a hardening rate equal to
    the magnitude of the slip rate, unit characteristic length and wave
    speed, and a point compressed at unit volumetric strain rate;
    the outer tolerances and the Newton correction are left open. *)
Definition model_with (rel abs : R)
    (update : RankTwoTensor -> SlipArray -> RankTwoTensor -> option RankTwoTensor)
  : Model :=
  {| params := params_with rel abs;
     nss := 1;
     slip_systems := fun _ => system0;
     elasticity := identity4;
     hardening_rate := fun _ rates a => Rabs (rates a);
     newton_update := update;
     char_length := 1;
     wave_speed := 1;
     volumetric_strain_rate := fun _ _ _ => -1 |}.

(** Loose outer tolerance, no Newton correction: accepted at the first
    outer iterate. *)
Abbreviation model0 := (model_with (1 / 10) 1 (fun _ _ _ => None)).

(** Tight absolute tolerance and the correction [S - R(S)]: accepted at
    the second outer iterate, through the relative test. *)
Abbreviation model_newton :=
  (model_with (1 / 4) (1 / 10) (fun S _ res => Some (sub S res))).

(** Resolved shear stress of a stress on [system0]. *)
Definition tau_of (T : RankTwoTensor) : R := (entry T D0 D1 + entry T D1 D0) / 2.

(** A simple shear of amount 2 applied to a virgin point of resistance 2. *)
Definition shear : RankTwoTensor :=
  rank2 (vec 1 2 0) (vec 0 1 0) (vec 0 0 1).

Definition old0 : PointState :=
  {| Fp := identity; gss := fun _ => 2; W0e := 0; W0p := 0 |}.

(** The trial stress of that step, and the quantities of its solve. *)
Definition trial0 : RankTwoTensor :=
  rank2 (vec 0 1 0) (vec 1 2 0) (vec 0 0 0).

Definition g1 : SlipArray := backward_euler model0 1 old0 trial0 (gss old0).

Definition Fp1 : RankTwoTensor := rank2 (vec 1 (2 / 5) 0) (vec 0 1 0) (vec 0 0 1).

Definition resid1 : RankTwoTensor :=
  rank2 (vec 0 (1 / 5) 0) (vec (1 / 5) (18 / 25) 0) (vec 0 0 0).

Definition res1 : Residual := calcResidual model0 shear 1 old0 trial0 g1.

Definition it1 : Iterate := mkIterate trial0 g1 res1 (L2norm (resid res1)).

Definition st1 : PointState :=
  update_energies model0 shear 1 old0 it1 (postSolveStatevar old0 it1).

(** The same step under [model_newton]: first iterate, corrected stress,
    second iterate. *)
Definition g1n : SlipArray := backward_euler model_newton 1 old0 trial0 (gss old0).

Definition res1n : Residual := calcResidual model_newton shear 1 old0 trial0 g1n.

Definition stress2 : RankTwoTensor :=
  rank2 (vec 0 (4 / 5) 0) (vec (4 / 5) (32 / 25) 0) (vec 0 0 0).

Definition Fp2 : RankTwoTensor := rank2 (vec 1 (8 / 25) 0) (vec 0 1 0) (vec 0 0 1).

Definition resid2 : RankTwoTensor :=
  rank2 (vec 0 (- (1 / 25)) 0) (vec (- (1 / 25)) (- (82 / 625)) 0) (vec 0 0 0).

Definition res2 : Residual := calcResidual model_newton shear 1 old0 stress2 g1n.

Definition it2 : Iterate := mkIterate stress2 g1n res2 (L2norm (resid res1n)).

Definition st2 : PointState :=
  update_energies model_newton shear 1 old0 it2 (postSolveStatevar old0 it2).

End Example.

(** A two-order-parameter element: grain 3 fully present, the second
    slot invalid. *)
Module ExampleGrains.
Import Tensor.

Definition invalid : N := 7%N.

Definition grains : list N := [3%N; 7%N].

Definition data : N -> RankFourTensor := fun _ _ _ _ _ => 5.

Definition euler : N -> RealVectorValue := fun _ => vec 1 2 3.

Definition rotation : RealVectorValue -> RankTwoTensor := fun _ => identity.

Definition order_parameters : nat -> R := fun _ => 1.

Definition qp : Polycrystal.QpElasticity :=
  Polycrystal.computeQpElasticityTensor invalid data euler rotation order_parameters
    1 1 1 grains grains.

Definition qp_empty : Polycrystal.QpElasticity :=
  Polycrystal.computeQpElasticityTensor invalid data euler rotation order_parameters
    1 1 1 [7%N; 7%N] [7%N; 7%N].

End ExampleGrains.

(* ================================================================== *)
(** * Properties                                                       *)
(* ================================================================== *)

Section TensorFacts.
Import Tensor.

Lemma entry_tabulate (f : Dim -> Dim -> R) (i j : Dim) :
  entry (tabulate f) i j = f i j.
Proof. destruct i, j; reflexivity. Qed.

Lemma vec_ext (a b : RealVectorValue) :
  (forall i, component a i = component b i) -> a = b.
Proof.
  intros H. destruct a as [a0 a1 a2], b as [b0 b1 b2].
  pose proof (H D0) as H0. pose proof (H D1) as H1. pose proof (H D2) as H2.
  cbn in H0, H1, H2. congruence.
Qed.

Lemma tensor_ext (A B : RankTwoTensor) :
  (forall i j, entry A i j = entry B i j) -> A = B.
Proof.
  intros H. destruct A as [a0 a1 a2], B as [b0 b1 b2].
  assert (E0 : a0 = b0) by (apply vec_ext; intro j; exact (H D0 j)).
  assert (E1 : a1 = b1) by (apply vec_ext; intro j; exact (H D1 j)).
  assert (E2 : a2 = b2) by (apply vec_ext; intro j; exact (H D2 j)).
  congruence.
Qed.

Lemma tabulate_entry (A : RankTwoTensor) : tabulate (entry A) = A.
Proof. apply tensor_ext; intros i j; apply entry_tabulate. Qed.

Lemma entry_assign (T : RankTwoTensor) (i j k l : Dim) (x : R) :
  entry (assign T i j x) k l =
  if (Dim_eqb i k && Dim_eqb j l)%bool then x else entry T k l.
Proof. destruct i, j, k, l; reflexivity. Qed.

End TensorFacts.

Ltac tensor_eq :=
  apply tensor_ext; intros [] []; cbn.

Ltac tensor_calc :=
  apply tensor_ext; intros [] [];
  cbv [Tensor.entry Tensor.component Tensor.row Tensor.tabulate Tensor.vtabulate
       Tensor.row0 Tensor.row1 Tensor.row2 Tensor.v0 Tensor.v1 Tensor.v2
       Tensor.inverse Tensor.det Tensor.cofactor Tensor.next Tensor.mult
       Tensor.sub Tensor.add Tensor.opp Tensor.scale_l Tensor.scale_r
       Tensor.transpose Tensor.identity Tensor.zero Tensor.outer
       Tensor.contract4 Tensor.Dim_eqb andb fold_left Tensor.LIBMESH_DIM
       W0p.green_lagrange W0p.direction W0p.normal Example.identity4];
  try lra; try (field; lra).

Section TensorAlgebra.
Import Tensor.

Lemma inverse_identity : inverse identity = identity.
Proof. tensor_calc. Qed.

Lemma mult_identity_r (A : RankTwoTensor) : mult A identity = A.
Proof. destruct A as [[] [] []]. tensor_calc. Qed.

Lemma sub_zero_r (A : RankTwoTensor) : sub A zero = A.
Proof. destruct A as [[] [] []]. tensor_calc. Qed.

Lemma inverse_shear (x : R) :
  inverse (rank2 (vec 1 x 0) (vec 0 1 0) (vec 0 0 1))
  = rank2 (vec 1 (- x) 0) (vec 0 1 0) (vec 0 0 1).
Proof. tensor_calc. Qed.





Lemma sqrt_lt_scaled (a b k : R) :
  0 <= a -> 0 <= b -> 0 <= k -> a < k * k * b -> sqrt a < k * sqrt b.
Proof.
  intros Ha Hb Hk Hlt.
  rewrite <- (sqrt_square k) at 1 by exact Hk.
  rewrite <- sqrt_mult by nra.
  apply sqrt_lt_1; nra.
Qed.

Lemma contract4_identity4 (E : RankTwoTensor) : contract4 Example.identity4 E = E.
Proof. destruct E as [[] [] []]. tensor_calc. Qed.

End TensorAlgebra.

Lemma derivable_pt_lim_eq (f g : R -> R) (x l : R) :
  (forall y, f y = g y) -> derivable_pt_lim g x l -> derivable_pt_lim f x l.
Proof.
  intros Hfg Hg eps Heps.
  destruct (Hg eps Heps) as [delta Hdelta].
  exists delta. intros h Hh Hlt.
  rewrite !Hfg. now apply Hdelta.
Qed.

(** Derivative in [c] of the degradation [A * ((1-c)^2 + k) - B]. *)
Lemma degradation_derivative (A B k c : R) :
  derivable_pt_lim (fun x => A * (Amor.pow2 (1 - x) + k) - B) c (- A * (2 * (1 - c))).
Proof.
  unfold Amor.pow2.
  replace (- A * (2 * (1 - c)))
    with (0 * (((1 - c) * (1 - c)) + k)
          + A * (((0 - 1) * (1 - c) + (1 - c) * (0 - 1)) + 0) - 0) by ring.
  apply (derivable_pt_lim_minus (fun x => A * ((1 - x) * (1 - x) + k)) (fun _ => B)).
  - apply (derivable_pt_lim_mult (fun _ => A) (fun x => (1 - x) * (1 - x) + k)).
    + apply derivable_pt_lim_const.
    + apply (derivable_pt_lim_plus (fun x => (1 - x) * (1 - x)) (fun _ => k)).
      * assert (D : derivable_pt_lim (fun x => 1 - x) c (0 - 1)).
        { apply (derivable_pt_lim_minus (fun _ => 1) (fun x => x)).
          - apply derivable_pt_lim_const.
          - apply derivable_pt_lim_id. }
        apply (derivable_pt_lim_mult (fun x => 1 - x) (fun x => 1 - x)); exact D.
      * apply derivable_pt_lim_const.
  - apply derivable_pt_lim_const.
Qed.

(* ------------------------------------------------------------------ *)
(** ** LinearIsoElasticPFAmor::updateVar                               *)
(* ------------------------------------------------------------------ *)

Section AmorFacts.
Import Tensor Amor.

Variable solver : EigenSolver.
Variable elasticity_tensor : RankFourTensor.
Variable kdamage : R.

Local Abbreviation run := (updateVar solver elasticity_tensor kdamage).

Lemma int_div_1_3 : int_div 1 3 = 0%Z.
Proof. reflexivity. Qed.

Lemma int_div_2_3 : int_div 2 3 = 0%Z.
Proof. reflexivity. Qed.

(** The diagonal fill writes [0 * etr] on the diagonal of zero tensors. *)
Lemma vol_loop_zero (etr etrpos etrneg : R) :
  vol_loop etr etrpos etrneg = (zero, zero, zero).
Proof.
  unfold vol_loop. cbn.
  rewrite !Rmult_0_l. reflexivity.
Qed.

(** [stress0pos] and [stress0neg] are computed before [c] is used. *)
Lemma stress0_independent_of_c (E : RankTwoTensor) (c c' : R) :
  stress0pos (run E c) = stress0pos (run E c') /\
  stress0neg (run E c) = stress0neg (run E c').
Proof.
  unfold updateVar. destruct (solver E) as [eigval eigvec].
  rewrite vol_loop_zero. split; reflexivity.
Qed.

Lemma stress_entry (E : RankTwoTensor) (c : R) (i j : Dim) :
  entry (stress (run E c)) i j =
  entry (stress0pos (run E c)) i j * (pow2 (1 - c) + kdamage)
  - entry (stress0neg (run E c)) i j.
Proof.
  unfold updateVar. destruct (solver E) as [eigval eigvec].
  rewrite vol_loop_zero. cbn [stress stress0pos stress0neg].
  unfold sub at 1. rewrite entry_tabulate.
  unfold scale_r at 1. rewrite entry_tabulate. reflexivity.
Qed.

Lemma dstress_dc_entry (E : RankTwoTensor) (c : R) (i j : Dim) :
  entry (dstress_dc (run E c)) i j =
  - entry (stress0pos (run E c)) i j * (2 * (1 - c)).
Proof.
  unfold updateVar. destruct (solver E) as [eigval eigvec].
  rewrite vol_loop_zero. cbn [dstress_dc stress0pos].
  unfold scale_r at 1. rewrite entry_tabulate.
  unfold opp at 1. rewrite entry_tabulate. reflexivity.
Qed.

(** C8. In [updateVar] the [int] quotients [1/3] and [2/3] are 0.  Hence,
    for every mechanical strain and every damage value [c]: [vol_strain],
    [vol_strain_pos] and [vol_strain_neg] are the zero tensor, [Kb] equals
    [lambda], [dev_strain] equals [total_strain], [stress0neg] is the zero
    tensor and the stress is [((1-c)^2 + kdamage) * 2 * mu] times the
    total strain, which is the mechanical strain as soon as the
    framework's eigen-decomposition rebuilds it.  The tensile/compressive
    volumetric split is inert. *)
Theorem updateVar_volumetric_split_inert (E : RankTwoTensor) (c : R) :
  let r := updateVar solver elasticity_tensor kdamage E c in
  int_div 1 3 = 0%Z /\ int_div 2 3 = 0%Z /\
  lambda r = elasticity_tensor D0 D0 D1 D1 /\
  mu r = elasticity_tensor D0 D1 D0 D1 /\
  vol_strain r = zero /\ vol_strain_pos r = zero /\ vol_strain_neg r = zero /\
  Kb r = lambda r /\
  dev_strain r = total_strain r /\
  stress0neg r = zero /\
  stress r = scale_l (((1 - c) ^ 2 + kdamage) * (2 * mu r)) (total_strain r) /\
  (spectral solver E ->
   total_strain r = E /\
   stress r = scale_l (((1 - c) ^ 2 + kdamage) * (2 * mu r)) E).
Proof.
  unfold spectral, updateVar. destruct (solver E) as [eigval eigvec].
  rewrite vol_loop_zero.
  cbn [lambda mu Kb vol_strain vol_strain_pos vol_strain_neg dev_strain
       total_strain stress0neg stress fst snd].
  set (ts := total_strain_loop eigval eigvec).
  assert (Hdev : sub ts zero = ts).
  { apply tensor_ext; intros i j. unfold sub. rewrite entry_tabulate.
    unfold zero at 1. rewrite entry_tabulate. ring. }
  assert (Hneg : forall k, scale_l k zero = zero).
  { intro k. apply tensor_ext; intros i j. unfold scale_l.
    rewrite entry_tabulate. unfold zero. rewrite !entry_tabulate. ring. }
  assert (Hstress :
    sub (scale_r (add (scale_l (3 * (elasticity_tensor D0 D0 D1 D1
                                      + IZR (int_div 2 3) * elasticity_tensor D0 D1 D0 D1))
                               zero)
                      (scale_l (2 * elasticity_tensor D0 D1 D0 D1) (sub ts zero)))
                 (pow2 (1 - c) + kdamage))
        (scale_l (3 * (elasticity_tensor D0 D0 D1 D1
                       + IZR (int_div 2 3) * elasticity_tensor D0 D1 D0 D1)) zero)
    = scale_l (((1 - c) ^ 2 + kdamage) * (2 * elasticity_tensor D0 D1 D0 D1)) ts).
  { rewrite Hdev, !Hneg.
    apply tensor_ext; intros i j.
    unfold sub, scale_r, add, scale_l, pow2. rewrite !entry_tabulate.
    unfold zero. rewrite !entry_tabulate. ring. }
  repeat split; try reflexivity.
  - cbn. ring.
  - exact Hdev.
  - apply Hneg.
  - exact Hstress.
  - assumption.
  - rewrite Hstress. congruence.
Qed.

(** C9. [_dstress_dc] is the exact partial derivative in [c] of the stress
    that [updateVar] computes: [stress0pos] and [stress0neg] do not depend
    on [c], the stress is [stress0pos * ((1-c)^2 + kdamage) - stress0neg],
    and its derivative in [c] is [-2 * (1-c) * stress0pos], entry by
    entry. *)
Theorem dstress_dc_exact_derivative (E : RankTwoTensor) (c : R) :
  (forall c', stress0pos (run E c') = stress0pos (run E c) /\
              stress0neg (run E c') = stress0neg (run E c)) /\
  stress (run E c) =
    sub (scale_r (stress0pos (run E c)) ((1 - c) ^ 2 + kdamage)) (stress0neg (run E c)) /\
  dstress_dc (run E c) = scale_l (-2 * (1 - c)) (stress0pos (run E c)) /\
  forall i j,
    derivable_pt_lim (fun x => entry (stress (run E x)) i j) c
                     (entry (dstress_dc (run E c)) i j).
Proof.
  split; [| split; [| split]].
  - intro c'. apply stress0_independent_of_c.
  - apply tensor_ext; intros i j. rewrite stress_entry.
    unfold sub, scale_r, pow2. rewrite !entry_tabulate. ring.
  - apply tensor_ext; intros i j. rewrite dstress_dc_entry.
    unfold scale_l. rewrite entry_tabulate. ring.
  - intros i j. rewrite dstress_dc_entry.
    apply derivable_pt_lim_eq
      with (g := fun x => entry (stress0pos (run E c)) i j * (pow2 (1 - x) + kdamage)
                          - entry (stress0neg (run E c)) i j).
    + intro x. rewrite stress_entry.
      destruct (stress0_independent_of_c E x c) as [-> ->]. reflexivity.
    + apply degradation_derivative.
Qed.

End AmorFacts.

Lemma updateVar_volumetric_split_inert_witness :
  Amor.spectral Example.compressive_solver Example.compressive_strain /\
  Amor.stress (Amor.updateVar Example.compressive_solver Example.unit_moduli 0 Example.compressive_strain (1 / 2))
  = Tensor.scale_l (((1 - 1 / 2) ^ 2 + 0) * (2 * 1)) Example.compressive_strain.
Proof.
  assert (Hs : Amor.spectral Example.compressive_solver Example.compressive_strain).
  { unfold Amor.spectral. tensor_eq; lra. }
  split; [exact Hs |].
  pose proof (updateVar_volumetric_split_inert Example.compressive_solver Example.unit_moduli 0
                Example.compressive_strain (1 / 2)) as H.
  cbv zeta in H.
  destruct H as (_ & _ & _ & _ & _ & _ & _ & _ & _ & _ & _ & H).
  exact (proj2 (H Hs)).
Defined.

(* ------------------------------------------------------------------ *)
(** ** ComputePolycrystalElasticityTensorCP::computeQpElasticityTensor *)
(* ------------------------------------------------------------------ *)

Section PolycrystalFacts.
Import Tensor Polycrystal.

Variable invalid_id : N.
Variable getData : N -> RankFourTensor.
Variable getEuler : N -> RealVectorValue.
Variable RotationTensor : RealVectorValue -> RankTwoTensor.
Variable vals : nat -> R.
Variables (JtoeV length_scale pressure_scale : R).

Local Abbreviation compute :=
  (computeQpElasticityTensor invalid_id getData getEuler RotationTensor vals
     JtoeV length_scale pressure_scale).

Lemma tol_pos : 0 < tol.
Proof. unfold tol. apply Rdiv_lt_0_compat; [lra | apply pow_lt; lra]. Qed.

Lemma clamp_ge_tol (sum_h : R) : tol <= Rmax sum_h tol.
Proof. apply Rmax_r. Qed.

(** With only invalid grain ids the loops never leave their initial
    state. *)
Lemma elasticity_loop_all_invalid (op_to_grains : list N) :
  Forall (fun g => g = invalid_id) op_to_grains ->
  elasticity_loop invalid_id getData vals op_to_grains = (zero4, 0).
Proof.
  unfold elasticity_loop, indexed. generalize 0%nat.
  intros n H. revert n.
  induction H as [| g l Hg _ IH]; intro n; [reflexivity |].
  cbn [length seq combine fold_left]. subst g. rewrite N.eqb_refl. apply IH.
Qed.

Lemma euler_loop_all_invalid (op_to_grains : list N) :
  Forall (fun g => g = invalid_id) op_to_grains ->
  euler_loop invalid_id getEuler vals op_to_grains = (vzero, 0).
Proof.
  unfold euler_loop, indexed. generalize 0%nat.
  intros n H. revert n.
  induction H as [| g l Hg _ IH]; intro n; [reflexivity |].
  cbn [length seq combine fold_left]. subst g. rewrite N.eqb_refl. apply IH.
Qed.

(** C10. [sum_h] is clamped from below to [tol = 1.0e-10] before each of
    the two divisions: the elasticity tensor is the accumulated tensor
    divided by [max(sum_h, tol)], the Euler angles are the accumulated
    angles divided by [max(sum_h, tol)], and both divisors are at least
    [tol], hence strictly positive, for every input; when every grain id
    is invalid no weight is accumulated and the divisor is [tol]
    itself. *)
Theorem computeQpElasticityTensor_divisors_positive
    (op_to_grains op_to_grains_euler : list N) :
  let r := compute op_to_grains op_to_grains_euler in
  let acc := elasticity_loop invalid_id getData vals op_to_grains in
  let acc_euler := euler_loop invalid_id getEuler vals op_to_grains_euler in
  elasticity_divisor r = Rmax (snd acc) tol /\
  elasticity_tensor r = div4 (fst acc) (elasticity_divisor r) /\
  euler_divisor r = Rmax (snd acc_euler) tol /\
  angle2 r = vdiv (fst acc_euler) (euler_divisor r) /\
  tol <= elasticity_divisor r /\ 0 < elasticity_divisor r /\
  tol <= euler_divisor r /\ 0 < euler_divisor r /\
  (Forall (fun g => g = invalid_id) op_to_grains ->
   snd acc = 0 /\ elasticity_divisor r = tol) /\
  (Forall (fun g => g = invalid_id) op_to_grains_euler ->
   snd acc_euler = 0 /\ euler_divisor r = tol).
Proof.
  cbv zeta. unfold computeQpElasticityTensor.
  destruct (elasticity_loop invalid_id getData vals op_to_grains) as [C s] eqn:EC.
  destruct (euler_loop invalid_id getEuler vals op_to_grains_euler) as [a s'] eqn:EA.
  cbn [elasticity_divisor elasticity_tensor euler_divisor angle2 fst snd].
  pose proof tol_pos as Ht.
  pose proof (clamp_ge_tol s) as Hs. pose proof (clamp_ge_tol s') as Hs'.
  repeat (split; [first [reflexivity | assumption | lra] |]).
  split.
  - intro Hall. rewrite (elasticity_loop_all_invalid _ Hall) in EC.
    injection EC as _ <-. split; [reflexivity |].
    apply Rmax_right. lra.
  - intro Hall. rewrite (euler_loop_all_invalid _ Hall) in EA.
    injection EA as _ <-. split; [reflexivity |].
    apply Rmax_right. lra.
Qed.

End PolycrystalFacts.

Lemma computeQpElasticityTensor_divisors_positive_witness :
  Forall (fun g => g = 7%N) [7%N; 7%N] /\
  Polycrystal.elasticity_divisor
    (Polycrystal.computeQpElasticityTensor 7%N (fun _ => Polycrystal.zero4)
       (fun _ => Tensor.vzero) (fun _ => Tensor.identity) (fun _ => 0) 1 1 1
       [7%N; 7%N] [7%N; 7%N]) = Polycrystal.tol.
Proof.
  assert (H : Forall (fun g => g = 7%N) [7%N; 7%N]) by (repeat constructor).
  split; [exact H |].
  pose proof (computeQpElasticityTensor_divisors_positive 7%N (fun _ => Polycrystal.zero4)
                (fun _ => Tensor.vzero) (fun _ => Tensor.identity) (fun _ => 0) 1 1 1
                [7%N; 7%N] [7%N; 7%N]) as T.
  cbv zeta in T.
  destruct T as (_ & _ & _ & _ & _ & _ & _ & _ & T & _).
  exact (proj2 (T H)).
Defined.

(* ------------------------------------------------------------------ *)
(** ** FiniteStrainCrystalPlasticityW0p (modelled from the spec)       *)
(* ------------------------------------------------------------------ *)

Section W0pFacts.
Import Tensor W0p.

Variable M : Model.










(** An accepted inner solve returns resistances whose residual passed the
    test; they are the starting guess or the value of a backward-Euler
    update. *)
Lemma statevar_loop_accepted (dt : R) (old : PointState)
    (fuel : nat) (prev : option R) (S : RankTwoTensor) (g g' : SlipArray) :
  statevar_loop M dt old fuel prev S g = Accepted g' ->
  statevar_residual M dt old S g' < gtol (params M) /\
  (g' = g \/ exists g'', g' = backward_euler M dt old S g'').
Proof.
  revert prev g. induction fuel as [| fuel IH]; intros prev g; cbn [statevar_loop].
  - discriminate.
  - destruct (Rlt_dec (statevar_residual M dt old S g) (gtol (params M))) as [Hlt | _].
    + intros [= <-]. split; [exact Hlt | now left].
    + destruct (diverged prev (statevar_residual M dt old S g)); [discriminate |].
      intro H. destruct (IH _ _ H) as [Hres [-> | [g'' ->]]].
      * split; [exact Hres | right; now exists g].
      * split; [exact Hres | right; now exists g''].
Qed.

Lemma converged_true (rnorm rnorm0 : R) :
  converged M rnorm rnorm0 = true ->
  rnorm < rtol (params M) * rnorm0 \/ rnorm < abs_tol (params M).
Proof.
  unfold converged.
  destruct (Rlt_dec rnorm (rtol (params M) * rnorm0)); [now left |].
  destruct (Rlt_dec rnorm (abs_tol (params M))); [now right | discriminate].
Qed.

(** An accepted outer solve: the residual stored in the iterate is the
    residual of the accepted stress evaluated with the accepted
    resistances, it passed the outer test, and those resistances passed
    the inner test against that same stress. *)
Lemma stress_loop_accepted (F : RankTwoTensor) (dt : R) (old : PointState)
    (fuel iter : nat) (rnorm0 prev : option R) (S : RankTwoTensor) (g : SlipArray)
    (it : Iterate) (n : nat) :
  stress_loop M F dt old fuel iter rnorm0 prev S g = (Accepted it, n) ->
  it_residual it = calcResidual M F dt old (it_stress it) (it_gss it) /\
  converged M (L2norm (resid (it_residual it))) (it_rnorm0 it) = true /\
  statevar_residual M dt old (it_stress it) (it_gss it) < gtol (params M) /\
  (it_gss it = g \/ exists S' g'', it_gss it = backward_euler M dt old S' g'').
Proof.
  revert iter rnorm0 prev S g.
  induction fuel as [| fuel IH]; intros iter rnorm0 prev S g; cbn [stress_loop].
  - discriminate.
  - destruct (solveStatevar M dt old S g) as [g' | | |] eqn:Hinner; try discriminate.
    apply statevar_loop_accepted in Hinner. destruct Hinner as [Hres Horigin].
    set (res := calcResidual M F dt old S g').
    set (r0 := match rnorm0 with Some r => r | None => L2norm (resid res) end).
    destruct (converged M (L2norm (resid res)) r0) eqn:Hconv.
    + intros [= <- _]. cbn [it_residual it_stress it_gss it_rnorm0].
      repeat split; try assumption.
      destruct Horigin as [-> | [g'' ->]]; [now left | right; eauto].
    + destruct (diverged prev (L2norm (resid res))); [discriminate |].
      destruct (newton_update M S g' (resid res)) as [S' |]; [| discriminate].
      intro H. destruct (IH _ _ _ _ _ H) as (H1 & H2 & H3 & H4).
      repeat split; try assumption.
      destruct H4 as [-> | H4]; [| now right].
      destruct Horigin as [-> | [g'' ->]]; [now left | right; eauto].
Qed.

(** The norm an accepted outer solve measures its relative test against
    is the residual norm of the first outer iterate. *)
Lemma stress_loop_rnorm0 (F : RankTwoTensor) (dt : R) (old : PointState)
    (fuel iter : nat) (rnorm0 prev : option R) (S : RankTwoTensor) (g : SlipArray)
    (it : Iterate) (n : nat) :
  stress_loop M F dt old fuel iter rnorm0 prev S g = (Accepted it, n) ->
  match rnorm0 with
  | Some r => it_rnorm0 it = r
  | None =>
    exists g0,
      solveStatevar M dt old S g = Accepted g0 /\
      it_rnorm0 it = L2norm (resid (calcResidual M F dt old S g0))
  end.
Proof.
  revert iter rnorm0 prev S g.
  induction fuel as [| fuel IH]; intros iter rnorm0 prev S g; cbn [stress_loop].
  - discriminate.
  - destruct (solveStatevar M dt old S g) as [g' | | |] eqn:Hinner; try discriminate.
    set (res := calcResidual M F dt old S g').
    set (r0 := match rnorm0 with Some r => r | None => L2norm (resid res) end).
    destruct (converged M (L2norm (resid res)) r0).
    + intros [= <- _]. cbn [it_rnorm0]. unfold r0.
      destruct rnorm0; [reflexivity | exists g'; split; reflexivity].
    + destruct (diverged prev (L2norm (resid res))); [discriminate |].
      destruct (newton_update M S g' (resid res)) as [S' |]; [| discriminate].
      intro H. specialize (IH _ _ _ _ _ H). cbn in IH. rewrite IH. unfold r0.
      destruct rnorm0; [reflexivity | exists g'; split; reflexivity].
Qed.

(** What an accepted step commits. *)
Lemma computeQpStress_accepted (F : RankTwoTensor) (dt : R) (old st : PointState) :
  computeQpStress M F dt old = Accepted st ->
  exists it n,
    solveStress M F dt old = (Accepted it, n) /\
    isochoric (Fp_trial (it_residual it)) = true /\
    st = update_energies M F dt old it (postSolveStatevar old it).
Proof.
  unfold computeQpStress.
  destruct (solveStress M F dt old) as [[it | | |] n] eqn:Hs; cbn [fst]; try discriminate.
  destruct (isochoric (Fp_trial (it_residual it))) eqn:Hiso; [| discriminate].
  intros [= <-]. exists it, n. auto.
Qed.

Lemma solveStress_accepted (F : RankTwoTensor) (dt : R) (old : PointState)
    (it : Iterate) (n : nat) :
  solveStress M F dt old = (Accepted it, n) ->
  it_residual it = calcResidual M F dt old (it_stress it) (it_gss it) /\
  converged M (L2norm (resid (it_residual it))) (it_rnorm0 it) = true /\
  statevar_residual M dt old (it_stress it) (it_gss it) < gtol (params M) /\
  (it_gss it = gss old \/ exists S' g'', it_gss it = backward_euler M dt old S' g'').
Proof. unfold solveStress, preSolveStatevar. apply stress_loop_accepted. Qed.




(** C3. Whenever the outer solve reports convergence, the iterate it
    returns holds the residual of the accepted stress evaluated with the
    accepted resistances; the norm of that residual is below the
    configured tolerance, relative to the residual norm of the first
    outer iterate (the trial stress with its re-equilibrated
    resistances) or absolute; and the inner residual of those same
    resistances against that same stress is below its own tolerance: both
    hold jointly, and every accepted state commits exactly those
    resistances. *)
Theorem residual_jointly_consistent
    (F : RankTwoTensor) (dt : R) (old : PointState) (it : Iterate) (n : nat) :
  solveStress M F dt old = (Accepted it, n) ->
  exists g0,
    solveStatevar M dt old (kinematic_predictor M F old) (preSolveStatevar old)
      = Accepted g0 /\
    it_rnorm0 it
      = L2norm (resid (calcResidual M F dt old (kinematic_predictor M F old) g0)) /\
    it_residual it = calcResidual M F dt old (it_stress it) (it_gss it) /\
    (L2norm (resid (calcResidual M F dt old (it_stress it) (it_gss it)))
       < rtol (params M)
         * L2norm (resid (calcResidual M F dt old (kinematic_predictor M F old) g0)) \/
     L2norm (resid (calcResidual M F dt old (it_stress it) (it_gss it)))
       < abs_tol (params M)) /\
    statevar_residual M dt old (it_stress it) (it_gss it) < gtol (params M) /\
    (forall st, computeQpStress M F dt old = Accepted st ->
       gss st = it_gss it /\
       Fp st = Fp_trial (calcResidual M F dt old (it_stress it) (it_gss it))).
Proof.
  intro Hs. destruct (solveStress_accepted _ _ _ _ _ Hs) as (Hres & Hconv & Hinner & _).
  pose proof Hs as Hs0. unfold solveStress in Hs0.
  apply stress_loop_rnorm0 in Hs0. destruct Hs0 as (g0 & Hg0 & Hr0).
  exists g0. split; [exact Hg0 |]. split; [exact Hr0 |].
  split; [exact Hres |]. split.
  - rewrite <- Hres, <- Hr0. now apply converged_true.
  - split; [exact Hinner |].
    intros st Hst. apply computeQpStress_accepted in Hst.
    destruct Hst as (it' & n' & Hs' & _ & ->).
    rewrite Hs in Hs'. injection Hs' as <- _.
    cbn [update_energies postSolveStatevar gss Fp]. now rewrite <- Hres.
Qed.


(** C5. With a hardening law that has no softening or recovery term
    (its rate is never negative), every slip system's resistance in the
    "current" snapshot committed by [postSolveStatevar] is greater than or
    equal to its "old" value. *)
Theorem resistance_monotone
    (F : RankTwoTensor) (dt : R) (old st : PointState) :
  (forall g rates a, 0 <= hardening_rate M g rates a) ->
  0 <= dt ->
  computeQpStress M F dt old = Accepted st ->
  forall a, gss old a <= gss st a.
Proof.
  intros Hhard Hdt H a. apply computeQpStress_accepted in H.
  destruct H as (it & n & Hs & _ & ->).
  cbn [update_energies postSolveStatevar gss].
  destruct (solveStress_accepted _ _ _ _ _ Hs) as (_ & _ & _ & [-> | (S' & g'' & ->)]).
  - lra.
  - unfold backward_euler.
    pose proof (Hhard g'' (slip_rates M S' g'') a) as Hh.
    pose proof (Rmult_le_pos _ _ Hdt Hh). lra.
Qed.

End W0pFacts.

(* ------------------------------------------------------------------ *)
(** ** A worked step                                                   *)
(* ------------------------------------------------------------------ *)

Section ExampleGeneric.
Import Tensor W0p Example.

Variables rel abs : R.
Variable update : RankTwoTensor -> SlipArray -> RankTwoTensor -> option RankTwoTensor.

Local Abbreviation Mx := (model_with rel abs update).

Lemma power_one (x : R) : 0 < x -> power x 1 = x.
Proof.
  intro Hx. unfold power. destruct (Req_dec_T x 0); [lra |].
  now apply Rpower_1.
Qed.

Lemma sign_pos (x : R) : 0 < x -> sign x = 1.
Proof.
  intro Hx. unfold sign. destruct (Rlt_dec x 0); [lra |].
  destruct (Rlt_dec 0 x); [reflexivity | lra].
Qed.

Lemma example_predictor : kinematic_predictor Mx shear old0 = trial0.
Proof.
  unfold kinematic_predictor. cbn [elasticity model_with Fp old0].
  rewrite inverse_identity, mult_identity_r, contract4_identity4.
  unfold shear, trial0. tensor_calc.
Qed.

Lemma example_tau (T : RankTwoTensor) (a : nat) :
  resolved_shear_stress Mx T a = tau_of T.
Proof.
  destruct T as [[] [] []].
  unfold resolved_shear_stress, schmid, doubleContraction, vdot, tau_of. cbn. lra.
Qed.

Lemma example_slip_rate (t g : R) : 0 < t -> 0 < g -> slip_rate Mx t g = t / g.
Proof.
  intros Ht Hg. unfold slip_rate. cbn [gamma0 flow_exponent params model_with params_with].
  assert (Hpos : 0 < t / g) by (apply Rdiv_lt_0_compat; lra).
  rewrite (Rabs_right (t / g)) by lra.
  rewrite power_one by exact Hpos. rewrite sign_pos by lra. ring.
Qed.

Lemma example_slip_incr (T : RankTwoTensor) (g : SlipArray) (a : nat) :
  0 < tau_of T -> 0 < g a -> getSlipIncrements Mx 1 T g a = tau_of T / g a.
Proof.
  intros Ht Hg. unfold getSlipIncrements, slip_rates.
  rewrite example_tau, example_slip_rate by assumption. ring.
Qed.

Lemma example_backward_euler (T : RankTwoTensor) (g : SlipArray) (a : nat) :
  0 < tau_of T -> 0 < g a ->
  backward_euler Mx 1 old0 T g a = 2 + tau_of T / g a.
Proof.
  intros Ht Hg. unfold backward_euler, slip_rates.
  cbn [gss old0 hardening_rate model_with].
  rewrite example_tau, example_slip_rate by assumption.
  rewrite Rabs_right; [ring |].
  apply Rle_ge. left. apply Rdiv_lt_0_compat; lra.
Qed.

Lemma example_residual (T : RankTwoTensor) (g : SlipArray) :
  0 < tau_of T -> 0 < g 0%nat ->
  statevar_residual Mx 1 old0 T g
  = Rmax 0 (Rabs (g 0%nat - (2 + tau_of T / g 0%nat))).
Proof.
  intros Ht Hg. unfold statevar_residual, norm_inf. cbn [nss model_with seq fold_left].
  now rewrite example_backward_euler.
Qed.

(** The residual evaluation on the example slip system, for a slip
    increment [d]: the plastic deformation gradient is a shear of [d],
    the elastic one a shear of [2 - d]. *)
Lemma example_calcResidual (T : RankTwoTensor) (g : SlipArray) :
  let d := getSlipIncrements Mx 1 T g 0%nat in
  Fp_trial (calcResidual Mx shear 1 old0 T g)
    = rank2 (vec 1 d 0) (vec 0 1 0) (vec 0 0 1) /\
  resid (calcResidual Mx shear 1 old0 T g)
    = sub T (green_lagrange (rank2 (vec 1 (2 - d) 0) (vec 0 1 0) (vec 0 0 1))).
Proof.
  cbv zeta. set (d := getSlipIncrements Mx 1 T g 0%nat).
  assert (HFp : Fp_trial (calcResidual Mx shear 1 old0 T g)
                = rank2 (vec 1 d 0) (vec 0 1 0) (vec 0 0 1)).
  { unfold calcResidual. cbn [Fp_trial Fp old0]. rewrite mult_identity_r.
    unfold plastic_increment, slip_dyad.
    cbn [nss model_with seq fold_left slip_systems]. fold d.
    replace (sub identity (add zero (scale_l d (outer (direction system0) (normal system0)))))
      with (rank2 (vec 1 (- d) 0) (vec 0 1 0) (vec 0 0 1))
      by (unfold system0; tensor_calc).
    rewrite inverse_shear. now rewrite Ropp_involutive. }
  split; [exact HFp |].
  unfold calcResidual in *. cbn [Fp_trial resid elasticity model_with] in *.
  rewrite HFp, inverse_shear, contract4_identity4.
  f_equal. f_equal. unfold shear. tensor_calc.
Qed.

(** The viscosity terms of the example: unit pressure from each term. *)
Lemma example_viscous (F : RankTwoTensor) :
  viscous_dissipation_increment Mx F 1 old0 = 2.
Proof.
  unfold viscous_dissipation_increment, viscosity_pressure, von_neumann, landshoff.
  cbn [volumetric_strain_rate char_length wave_speed params model_with params_with C0 C1].
  destruct (Rlt_dec (-1) 0) as [_ | Hn]; [| lra].
  rewrite Rabs_left by lra. lra.
Qed.

(** First outer iterate: two inner iterations settle the resistance at
    5/2. *)
Lemma example_g1 (a : nat) : backward_euler Mx 1 old0 trial0 (gss old0) a = 5 / 2.
Proof.
  rewrite example_backward_euler; unfold tau_of, trial0; cbn; lra.
Qed.

Lemma example_solveStatevar :
  solveStatevar Mx 1 old0 trial0 (gss old0)
  = Accepted (backward_euler Mx 1 old0 trial0 (gss old0)).
Proof.
  assert (Ht : 0 < tau_of trial0) by (unfold tau_of, trial0; cbn; lra).
  assert (Htv : tau_of trial0 = 1) by (unfold tau_of, trial0; cbn; lra).
  unfold solveStatevar. cbn [maxiterg params model_with params_with statevar_loop gtol].
  rewrite example_residual by (try exact Ht; cbn; lra). cbn [gss old0]. rewrite Htv.
  replace (2 - (2 + 1 / 2)) with (- (1 / 2)) by lra.
  rewrite Rabs_Ropp, Rabs_right, Rmax_right by lra.
  destruct (Rlt_dec (1 / 2) (1 / 5)) as [Hlt | _]; [lra |].
  cbn [diverged].
  rewrite example_residual by (try exact Ht; rewrite example_g1; lra).
  rewrite example_g1, Htv.
  replace (5 / 2 - (2 + 1 / (5 / 2))) with (1 / 10) by lra.
  rewrite Rabs_right, Rmax_right by lra.
  destruct (Rlt_dec (1 / 10) (1 / 5)) as [_ | Hge]; [reflexivity | lra].
Qed.

Lemma example_first_residual :
  Fp_trial (calcResidual Mx shear 1 old0 trial0 (backward_euler Mx 1 old0 trial0 (gss old0)))
    = Fp1 /\
  resid (calcResidual Mx shear 1 old0 trial0 (backward_euler Mx 1 old0 trial0 (gss old0)))
    = resid1.
Proof.
  assert (Ht : 0 < tau_of trial0) by (unfold tau_of, trial0; cbn; lra).
  assert (Htv : tau_of trial0 = 1) by (unfold tau_of, trial0; cbn; lra).
  destruct (example_calcResidual trial0 (backward_euler Mx 1 old0 trial0 (gss old0)))
    as [HFp Hres].
  cbv zeta in HFp, Hres.
  rewrite example_slip_incr in HFp, Hres by (try exact Ht; rewrite example_g1; lra).
  rewrite example_g1, Htv in HFp, Hres.
  split.
  - rewrite HFp. unfold Fp1. f_equal. f_equal. lra.
  - rewrite Hres. unfold trial0, resid1. tensor_calc.
Qed.

End ExampleGeneric.

Lemma resid1_norm : Tensor.doubleContraction Example.resid1 Example.resid1 = 374 / 625.
Proof. unfold Example.resid1, Tensor.doubleContraction, Tensor.vdot. cbn. lra. Qed.

Lemma resid2_norm : Tensor.doubleContraction Example.resid2 Example.resid2 = 7974 / 390625.
Proof. unfold Example.resid2, Tensor.doubleContraction, Tensor.vdot. cbn. lra. Qed.

Section ExampleRun.
Import Tensor W0p Example.

Lemma example_gss_g1 (a : nat) : g1 a = 5 / 2.
Proof. unfold g1. apply example_g1. Qed.

Lemma example_Fp_trial : Fp_trial res1 = Fp1.
Proof. unfold res1, g1. apply example_first_residual. Qed.

Lemma example_resid : resid res1 = resid1.
Proof. unfold res1, g1. apply example_first_residual. Qed.

Lemma example_rnorm : L2norm (resid res1) < 1.
Proof.
  rewrite example_resid. unfold L2norm. rewrite resid1_norm.
  assert (H : sqrt (374 / 625) < sqrt 1) by (apply sqrt_lt_1; lra).
  now rewrite sqrt_1 in H.
Qed.

Lemma example_solveStress : solveStress model0 shear 1 old0 = (Accepted it1, 1%nat).
Proof.
  unfold solveStress. rewrite example_predictor.
  cbn [maxiter params model_with params_with stress_loop]. unfold preSolveStatevar.
  rewrite example_solveStatevar. fold g1. fold res1.
  unfold converged. cbn [rtol abs_tol params model_with params_with].
  pose proof example_rnorm as Hn.
  destruct (Rlt_dec (L2norm (resid res1)) (1 / 10 * L2norm (resid res1)));
    [reflexivity |].
  destruct (Rlt_dec (L2norm (resid res1)) 1); [reflexivity | contradiction].
Qed.

Lemma isochoric_shear (d : R) :
  isochoric (rank2 (vec 1 d 0) (vec 0 1 0) (vec 0 0 1)) = true.
Proof.
  unfold isochoric, det_tol.
  replace (det (rank2 (vec 1 d 0) (vec 0 1 0) (vec 0 0 1))) with 1
    by (unfold det; cbn; lra).
  replace (1 - 1) with 0 by lra. rewrite Rabs_R0.
  destruct (Rle_dec 0 (1 / 10 ^ 6)) as [_ | Hn]; [reflexivity |].
  exfalso. apply Hn. left. apply Rdiv_lt_0_compat; [lra | apply pow_lt; lra].
Qed.

Lemma example_isochoric : isochoric (Fp_trial res1) = true.
Proof. rewrite example_Fp_trial. apply isochoric_shear. Qed.

Lemma example_computeQpStress : computeQpStress model0 shear 1 old0 = Accepted st1.
Proof.
  unfold computeQpStress. rewrite example_solveStress. cbn [fst it_residual it1].
  rewrite example_isochoric. reflexivity.
Qed.

Lemma example_gss (a : nat) : gss st1 a = 5 / 2.
Proof.
  unfold st1. cbn [update_energies postSolveStatevar gss it_gss it1]. apply example_gss_g1.
Qed.

(** The same step with the tight tolerance: the first iterate is not
    accepted, the correction gives [stress2], and the second iterate
    passes the relative test. *)
Lemma newton_g1 (a : nat) : g1n a = 5 / 2.
Proof. unfold g1n. apply example_g1. Qed.

Lemma newton_first_resid : resid res1n = resid1.
Proof. unfold res1n, g1n. apply example_first_residual. Qed.

Lemma newton_correction : sub trial0 (resid res1n) = stress2.
Proof. rewrite newton_first_resid. unfold trial0, resid1, stress2. tensor_calc. Qed.

Lemma newton_tau2 : tau_of stress2 = 4 / 5.
Proof. unfold tau_of, stress2. cbn. lra. Qed.

Lemma newton_solveStatevar2 : solveStatevar model_newton 1 old0 stress2 g1n = Accepted g1n.
Proof.
  unfold solveStatevar. cbn [maxiterg params model_with params_with statevar_loop gtol].
  rewrite example_residual by (rewrite ?newton_tau2, ?newton_g1; lra).
  rewrite newton_g1, newton_tau2.
  replace (5 / 2 - (2 + 4 / 5 / (5 / 2))) with (9 / 50) by lra.
  rewrite Rabs_right, Rmax_right by lra.
  destruct (Rlt_dec (9 / 50) (1 / 5)) as [_ | Hge]; [reflexivity | lra].
Qed.

Lemma newton_second_residual : Fp_trial res2 = Fp2 /\ resid res2 = resid2.
Proof.
  destruct (example_calcResidual (1 / 4) (1 / 10) (fun S _ res => Some (sub S res))
              stress2 g1n) as [HFp Hres].
  cbv zeta in HFp, Hres.
  rewrite example_slip_incr in HFp, Hres by (rewrite ?newton_tau2, ?newton_g1; lra).
  rewrite newton_g1, newton_tau2 in HFp, Hres.
  unfold res2. split.
  - rewrite HFp. unfold Fp2. f_equal. f_equal. lra.
  - rewrite Hres. unfold stress2, resid2. tensor_calc.
Qed.

Lemma newton_rnorm1 : 1 / 10 <= L2norm (resid res1n) /\ 0 < L2norm (resid res1n).
Proof.
  rewrite newton_first_resid. unfold L2norm. rewrite resid1_norm. split.
  - rewrite <- (sqrt_square (1 / 10)) by lra. apply sqrt_le_1; lra.
  - apply sqrt_lt_R0. lra.
Qed.

Lemma newton_rnorm2 : L2norm (resid res2) < 1 / 4 * L2norm (resid res1n).
Proof.
  destruct newton_second_residual as [_ ->]. rewrite newton_first_resid.
  unfold L2norm. rewrite resid1_norm, resid2_norm.
  apply sqrt_lt_scaled; lra.
Qed.

Lemma newton_solveStress :
  solveStress model_newton shear 1 old0 = (Accepted it2, 2%nat).
Proof.
  unfold solveStress. rewrite example_predictor.
  cbn [maxiter params model_with params_with stress_loop]. unfold preSolveStatevar.
  rewrite example_solveStatevar. fold g1n. fold res1n.
  unfold converged. cbn [rtol abs_tol params model_with params_with].
  destruct newton_rnorm1 as [Habs Hpos].
  destruct (Rlt_dec (L2norm (resid res1n)) (1 / 4 * L2norm (resid res1n))); [lra |].
  destruct (Rlt_dec (L2norm (resid res1n)) (1 / 10)); [lra |].
  cbn [diverged newton_update model_with].
  rewrite newton_correction, newton_solveStatevar2. fold res2.
  pose proof newton_rnorm2 as H2.
  destruct (Rlt_dec (L2norm (resid res2)) (1 / 4 * L2norm (resid res1n)));
    [reflexivity | contradiction].
Qed.


(** The accepted step dissipates the plastic work 4/5 * 8/25 and the
    viscous work 2. *)
Lemma newton_W0p : W0p st2 = 32 / 125 + 2.
Proof.
  unfold st2. cbn [update_energies W0p old0 it_residual it2].
  rewrite example_viscous.
  unfold plastic_work_increment, sum_over. cbn [nss model_with seq fold_left].
  unfold res2. cbn [calcResidual tau slip_incr].
  rewrite example_tau, example_slip_incr by (rewrite ?newton_tau2, ?newton_g1; lra).
  rewrite newton_tau2, newton_g1. lra.
Qed.

End ExampleRun.

(* ------------------------------------------------------------------ *)
(** ** The properties on the worked steps                              *)
(* ------------------------------------------------------------------ *)


Lemma residual_jointly_consistent_witness :
  W0p.solveStress Example.model_newton Example.shear 1 Example.old0
    = (W0p.Accepted Example.it2, 2%nat) /\
  exists g0,
    W0p.solveStatevar Example.model_newton 1 Example.old0
      (W0p.kinematic_predictor Example.model_newton Example.shear Example.old0)
      (W0p.preSolveStatevar Example.old0) = W0p.Accepted g0 /\
    (Tensor.L2norm (W0p.resid (W0p.calcResidual Example.model_newton Example.shear 1
                                 Example.old0 Example.stress2 Example.g1n))
       < 1 / 4
         * Tensor.L2norm (W0p.resid (W0p.calcResidual Example.model_newton Example.shear 1
              Example.old0
              (W0p.kinematic_predictor Example.model_newton Example.shear Example.old0)
              g0)) \/
     Tensor.L2norm (W0p.resid (W0p.calcResidual Example.model_newton Example.shear 1
                                 Example.old0 Example.stress2 Example.g1n))
       < 1 / 10) /\
    W0p.statevar_residual Example.model_newton 1 Example.old0 Example.stress2 Example.g1n
      < 1 / 5.
Proof.
  split; [exact newton_solveStress |].
  destruct (residual_jointly_consistent Example.model_newton Example.shear 1 Example.old0
              Example.it2 2 newton_solveStress) as (g0 & Hg0 & _ & _ & Houter & Hinner & _).
  exists g0. split; [exact Hg0 |]. split; [exact Houter | exact Hinner].
Defined.


Lemma resistance_monotone_witness :
  (forall g rates a, 0 <= W0p.hardening_rate Example.model0 g rates a) /\
  forall a, W0p.gss Example.old0 a <= W0p.gss Example.st1 a.
Proof.
  assert (Hhard : forall g rates a, 0 <= W0p.hardening_rate Example.model0 g rates a).
  { intros g rates a. cbn. apply Rabs_pos. }
  assert (Hdt : 0 <= 1) by lra.
  split; [exact Hhard |].
  exact (resistance_monotone Example.model0 Example.shear 1 Example.old0 Example.st1
           Hhard Hdt example_computeQpStress).
Defined.

(* ================================================================== *)
(** * Further properties of the material models                       *)
(* ================================================================== *)

(* ------------------------------------------------------------------ *)
(** ** LinearIsoElasticPFAmor                                          *)
(* ------------------------------------------------------------------ *)

Section AmorMore.
Import Tensor Amor AmorQp.

Variable solver : EigenSolver.
Variable elasticity_tensor : RankFourTensor.
Variable kdamage : R.

Local Abbreviation run := (updateVar solver elasticity_tensor kdamage).

Lemma total_strain_loop_symmetric (eigval : RealVectorValue) (eigvec : RankTwoTensor) :
  symmetric (total_strain_loop eigval eigvec).
Proof.
  destruct eigval, eigvec as [[] [] []]. intros [] []; cbn; ring.
Qed.

Lemma val_loop_symmetric (d : RankTwoTensor) :
  symmetric d ->
  val_loop d
  = entry d D0 D0 ^ 2 + entry d D1 D1 ^ 2 + entry d D2 D2 ^ 2
    + 2 * entry d D0 D1 ^ 2 + 2 * entry d D0 D2 ^ 2 + 2 * entry d D1 D2 ^ 2.
Proof.
  intro Hs. unfold val_loop, LIBMESH_DIM. cbn [fold_left].
  rewrite (Hs D1 D0), (Hs D2 D0), (Hs D2 D1). ring.
Qed.

Lemma val_loop_nonneg (d : RankTwoTensor) : symmetric d -> 0 <= val_loop d.
Proof.
  intro Hs. rewrite (val_loop_symmetric d Hs).
  pose proof (pow2_ge_0 (entry d D0 D0)). pose proof (pow2_ge_0 (entry d D1 D1)).
  pose proof (pow2_ge_0 (entry d D2 D2)). pose proof (pow2_ge_0 (entry d D0 D1)).
  pose proof (pow2_ge_0 (entry d D0 D2)). pose proof (pow2_ge_0 (entry d D1 D2)).
  lra.
Qed.

(** The energy written to [_G0_pos], in terms of the locals. *)
Lemma G0_pos_formula (E : RankTwoTensor) (c : R) :
  G0_pos (run E c)
  = lambda (run E c) * pow2 (etrpos (run E c)) / 2
    + val_loop (total_strain (run E c)) * mu (run E c).
Proof.
  unfold updateVar. destruct (solver E) as [eigval eigvec].
  rewrite vol_loop_zero. cbn [G0_pos lambda mu etrpos total_strain].
  rewrite sub_zero_r. rewrite int_div_2_3. field.
Qed.

Lemma lame_constants_read (E : RankTwoTensor) (c : R) :
  lambda (run E c) = elasticity_tensor D0 D0 D1 D1 /\
  mu (run E c) = elasticity_tensor D0 D1 D0 D1.
Proof.
  unfold updateVar. destruct (solver E) as [eigval eigvec].
  rewrite vol_loop_zero. split; reflexivity.
Qed.

Lemma total_strain_formula (E : RankTwoTensor) (c : R) :
  total_strain (run E c) = total_strain_loop (fst (solver E)) (snd (solver E)) /\
  etr (run E c) = trace_loop (fst (solver E)).
Proof.
  unfold updateVar. destruct (solver E) as [eigval eigvec].
  rewrite vol_loop_zero. split; reflexivity.
Qed.

Lemma positive_part (t : R) : (Rabs t + t) / 2 = Rmax t 0.
Proof.
  unfold Rabs, Rmax. destruct (Rcase_abs t); destruct (Rle_dec t 0); lra.
Qed.

Lemma etrpos_field (E : RankTwoTensor) (c : R) :
  etrpos (run E c) = (Rabs (etr (run E c)) + etr (run E c)) / 2.
Proof.
  unfold updateVar. destruct (solver E) as [eigval eigvec].
  rewrite vol_loop_zero. reflexivity.
Qed.

Lemma stress0neg_is_zero (E : RankTwoTensor) (c : R) : stress0neg (run E c) = zero.
Proof.
  unfold updateVar. destruct (solver E) as [eigval eigvec].
  rewrite vol_loop_zero. cbn [stress0neg].
  apply tensor_ext; intros i j. unfold scale_l, zero. rewrite !entry_tabulate. ring.
Qed.

Lemma stress0pos_formula (E : RankTwoTensor) (c : R) :
  stress0pos (run E c) = scale_l (2 * mu (run E c)) (total_strain (run E c)).
Proof.
  unfold updateVar. destruct (solver E) as [eigval eigvec].
  rewrite vol_loop_zero. cbn [stress0pos mu total_strain].
  rewrite sub_zero_r.
  apply tensor_ext; intros i j. unfold add, scale_l, zero. rewrite !entry_tabulate. ring.
Qed.

Lemma spectral_norm (l : RealVectorValue) (V : RankTwoTensor) :
  orthonormal_columns V ->
  val_loop (total_strain_loop l V) = v0 l ^ 2 + v1 l ^ 2 + v2 l ^ 2.
Proof.
  intro Ho.
  pose proof (Ho D0 D0) as H00. pose proof (Ho D1 D1) as H11.
  pose proof (Ho D2 D2) as H22. pose proof (Ho D0 D1) as H01.
  pose proof (Ho D0 D2) as H02. pose proof (Ho D1 D2) as H12.
  destruct l as [l0 l1 l2], V as [[a0 a1 a2] [b0 b1 b2] [c0 c1 c2]].
  cbn in H00, H11, H22, H01, H02, H12.
  unfold val_loop, total_strain_loop, LIBMESH_DIM. cbn.
  transitivity
    (l0 * l0 * ((a0 * a0 + b0 * b0 + c0 * c0) * (a0 * a0 + b0 * b0 + c0 * c0))
     + l1 * l1 * ((a1 * a1 + b1 * b1 + c1 * c1) * (a1 * a1 + b1 * b1 + c1 * c1))
     + l2 * l2 * ((a2 * a2 + b2 * b2 + c2 * c2) * (a2 * a2 + b2 * b2 + c2 * c2))
     + 2 * l0 * l1 * ((a0 * a1 + b0 * b1 + c0 * c1) * (a0 * a1 + b0 * b1 + c0 * c1))
     + 2 * l0 * l2 * ((a0 * a2 + b0 * b2 + c0 * c2) * (a0 * a2 + b0 * b2 + c0 * c2))
     + 2 * l1 * l2 * ((a1 * a2 + b1 * b2 + c1 * c2) * (a1 * a2 + b1 * b2 + c1 * c2))).
  - ring.
  - rewrite H00, H11, H22, H01, H02, H12. ring.
Qed.

(** X1. The trace of the strain is split into its positive and negative
    parts: both are non-negative, at most one is nonzero, and their
    difference is the trace, the sum of the eigenvalues. *)
Theorem updateVar_trace_split (E : RankTwoTensor) (c : R) :
  let r := run E c in
  etr r = 0 + v0 (fst (solver E)) + v1 (fst (solver E)) + v2 (fst (solver E)) /\
  0 <= etrpos r /\ 0 <= etrneg r /\
  etrpos r - etrneg r = etr r /\
  etrpos r * etrneg r = 0 /\
  etrpos r = Rmax (etr r) 0 /\
  etrneg r = Rmax (- etr r) 0.
Proof.
  cbv zeta. unfold updateVar. destruct (solver E) as [eigval eigvec].
  rewrite vol_loop_zero. cbn [etr etrpos etrneg fst].
  split; [reflexivity |].
  generalize (trace_loop eigval). intro t.
  unfold Rabs, Rmax.
  destruct (Rcase_abs t); destruct (Rle_dec t 0); destruct (Rle_dec (- t) 0);
    repeat split; nra.
Qed.

(** X2. Whatever the eigen-solver returns, every tensor [updateVar] computes
    from it is symmetric: the rebuilt strain, the stresses and both
    derivative properties. *)
Theorem updateVar_tensors_symmetric (E : RankTwoTensor) (c : R) :
  let r := run E c in
  symmetric (total_strain r) /\ symmetric (dev_strain r) /\
  symmetric (stress0pos r) /\ symmetric (stress r) /\
  symmetric (dG0_pos_dstrain r) /\ symmetric (dstress_dc r).
Proof.
  cbv zeta. unfold updateVar.
  destruct (solver E) as [[l0 l1 l2] [[a0 a1 a2] [b0 b1 b2] [c0 c1 c2]]].
  rewrite vol_loop_zero.
  cbn [total_strain dev_strain stress0pos stress dG0_pos_dstrain dstress_dc].
  repeat split; intros [] []; cbn; ring.
Qed.

(** X3. With non-negative Lame constants the energy [_G0_pos] that drives
    damage is never negative. *)
Theorem G0_pos_nonneg (E : RankTwoTensor) (c : R) :
  0 <= elasticity_tensor D0 D0 D1 D1 ->
  0 <= elasticity_tensor D0 D1 D0 D1 ->
  0 <= G0_pos (run E c).
Proof.
  intros Hl Hm. rewrite G0_pos_formula.
  destruct (lame_constants_read E c) as (Hlam & Hmu).
  rewrite Hlam, Hmu.
  destruct (total_strain_formula E c) as [-> _].
  pose proof (val_loop_nonneg _ (total_strain_loop_symmetric (fst (solver E)) (snd (solver E)))) as Hv.
  assert (Hp : 0 <= pow2 (etrpos (run E c))) by (unfold pow2; nra).
  nra.
Qed.

(** X4. When the eigenvectors returned by the solver are orthonormal,
    [_G0_pos] is [lambda / 2] times the squared positive part of the trace
    plus [mu] times the sum of the squares of all three eigenvalues,
    compressive ones included: under a compressive trace it is
    [mu * (e0^2 + e1^2 + e2^2)], not zero. *)
Theorem G0_pos_spectral (E : RankTwoTensor) (c : R) :
  orthonormal_columns (snd (solver E)) ->
  let r := run E c in
  let e := fst (solver E) in
  G0_pos r = lambda r * Rmax (etr r) 0 ^ 2 / 2 + mu r * (v0 e ^ 2 + v1 e ^ 2 + v2 e ^ 2) /\
  (etr r <= 0 -> G0_pos r = mu r * (v0 e ^ 2 + v1 e ^ 2 + v2 e ^ 2)).
Proof.
  intro Ho. cbv zeta.
  assert (Hmain : G0_pos (run E c)
    = lambda (run E c) * Rmax (etr (run E c)) 0 ^ 2 / 2
      + mu (run E c) * (v0 (fst (solver E)) ^ 2 + v1 (fst (solver E)) ^ 2
                        + v2 (fst (solver E)) ^ 2)).
  { rewrite G0_pos_formula.
    rewrite etrpos_field, positive_part.
    destruct (total_strain_formula E c) as [-> _].
    rewrite (spectral_norm _ _ Ho). unfold pow2. field. }
  split; [exact Hmain |].
  intro Hneg. rewrite Hmain. rewrite Rmax_right by exact Hneg. field.
Qed.

(** X5. For a damage value between 0 and 1 the degradation factor lies
    between [kdamage] and [1 + kdamage] and does not increase with
    damage; at full damage ([c = 1]) the stress keeps the residual
    stiffness [kdamage] and its derivative in [c] vanishes. *)
Theorem degradation_bounds (E : RankTwoTensor) (c c' : R) :
  0 <= c -> c <= c' -> c' <= 1 ->
  kdamage <= xfac (run E c') /\
  xfac (run E c') <= xfac (run E c) /\
  xfac (run E c) <= 1 + kdamage /\
  xfac (run E 0) = 1 + kdamage /\
  xfac (run E 1) = kdamage /\
  stress (run E 1) = scale_l kdamage (stress0pos (run E 1)) /\
  dstress_dc (run E 1) = zero.
Proof.
  intros H0 Hcc H1.
  assert (Hx : forall x, xfac (run E x) = (1 - x) * (1 - x) + kdamage).
  { intro x. unfold updateVar. destruct (solver E) as [eigval eigvec].
    rewrite vol_loop_zero. reflexivity. }
  rewrite !Hx.
  repeat split; try nra.
  - apply tensor_ext; intros i j. rewrite stress_entry.
    rewrite stress0neg_is_zero. unfold scale_l, zero, pow2. rewrite !entry_tabulate. ring.
  - apply tensor_ext; intros i j. rewrite dstress_dc_entry.
    unfold zero. rewrite entry_tabulate. ring.
Qed.

End AmorMore.

Section AmorJacobian.
Import Tensor Amor AmorQp.

Variable solver : EigenSolver.
Variables (lam m kdamage : R).

Lemma contract4_isotropic (E : RankTwoTensor) :
  symmetric E ->
  contract4 (isotropic lam m) E
  = add (scale_l (lam * trace E) identity) (scale_l (2 * m) E).
Proof.
  intro Hs. pose proof (Hs D1 D0) as H10. pose proof (Hs D2 D0) as H20.
  pose proof (Hs D2 D1) as H21.
  destruct E as [[e00 e01 e02] [e10 e11 e12] [e20 e21 e22]].
  cbn in H10, H20, H21. subst e10 e20 e21.
  apply tensor_ext; intros [] [];
    cbv [contract4 isotropic delta trace add scale_l identity entry component row
         tabulate vtabulate row0 row1 row2 v0 v1 v2 Dim_eqb fold_left LIBMESH_DIM];
    ring.
Qed.

(** X6. For an isotropic elasticity tensor and an exact eigen-decomposition,
    the tangent [_Jacobian_mult] applied to the strain is the full
    undamaged elastic response [lam * tr(E) * I + stress0pos], while the
    stress is the degradation factor times its shear part only: the
    Jacobian carries neither the damage nor the loss of the bulk term. *)
Theorem jacobian_is_undamaged_tangent (E : RankTwoTensor) (c : R) :
  spectral solver E ->
  let q := computeQpStress solver (isotropic lam m) kdamage E c in
  contract4 (Jacobian_mult q) E
    = add (scale_l (lam * trace E) identity) (stress0pos (var q)) /\
  stress (var q)
    = scale_l (xfac (var q))
        (sub (contract4 (Jacobian_mult q) E) (scale_l (lam * trace E) identity)).
Proof.
  intro Hsp. cbv zeta. cbn [computeQpStress Jacobian_mult var updateJacobian].
  assert (Hts : total_strain (updateVar solver (isotropic lam m) kdamage E c) = E).
  { destruct (total_strain_formula solver (isotropic lam m) kdamage E c) as [-> _].
    exact Hsp. }
  assert (Hsym : symmetric E).
  { rewrite <- Hsp. apply total_strain_loop_symmetric. }
  assert (Hmu : mu (updateVar solver (isotropic lam m) kdamage E c) = m).
  { destruct (lame_constants_read solver (isotropic lam m) kdamage E c) as [_ ->].
    unfold isotropic, delta. cbn. ring. }
  assert (H0 : stress0pos (updateVar solver (isotropic lam m) kdamage E c)
               = scale_l (2 * m) E).
  { rewrite stress0pos_formula, Hts, Hmu. reflexivity. }
  unfold updateJacobian.
  rewrite (contract4_isotropic E Hsym), H0. split; [reflexivity |].
  apply tensor_ext; intros i j. rewrite stress_entry, stress0neg_is_zero, H0.
  assert (Hx : xfac (updateVar solver (isotropic lam m) kdamage E c)
               = pow2 (1 - c) + kdamage).
  { unfold updateVar. destruct (solver E) as [eigval eigvec].
    rewrite vol_loop_zero. reflexivity. }
  rewrite Hx. unfold scale_l, sub, add, zero. rewrite !entry_tabulate. ring.
Qed.

End AmorJacobian.

Lemma G0_pos_nonneg_witness :
  0 <= Amor.G0_pos (Amor.updateVar Example.compressive_solver Example.unit_moduli 0
                      Example.compressive_strain (1 / 2)).
Proof.
  apply (G0_pos_nonneg Example.compressive_solver Example.unit_moduli 0
           Example.compressive_strain (1 / 2)); unfold Example.unit_moduli; lra.
Defined.

Lemma identity_orthonormal : AmorQp.orthonormal_columns Tensor.identity.
Proof. intros [] []; cbn; lra. Qed.

Lemma G0_pos_spectral_witness :
  AmorQp.orthonormal_columns (snd (Example.compressive_solver Example.compressive_strain)) /\
  Amor.G0_pos (Amor.updateVar Example.compressive_solver Example.unit_moduli 0
                 Example.compressive_strain (1 / 2)) = 14.
Proof.
  split; [exact identity_orthonormal |].
  destruct (G0_pos_spectral Example.compressive_solver Example.unit_moduli 0
              Example.compressive_strain (1 / 2) identity_orthonormal) as [_ H].
  rewrite H.
  - cbn. unfold Example.unit_moduli. lra.
  - cbn. lra.
Defined.

Lemma degradation_bounds_witness :
  Amor.xfac (Amor.updateVar Example.compressive_solver Example.unit_moduli (1 / 10)
               Example.compressive_strain (1 / 2))
  <= Amor.xfac (Amor.updateVar Example.compressive_solver Example.unit_moduli (1 / 10)
                  Example.compressive_strain (1 / 4)).
Proof.
  assert (H0 : 0 <= 1 / 4) by lra.
  assert (H1 : 1 / 4 <= 1 / 2) by lra.
  assert (H2 : 1 / 2 <= 1) by lra.
  destruct (degradation_bounds Example.compressive_solver Example.unit_moduli (1 / 10)
              Example.compressive_strain (1 / 4) (1 / 2) H0 H1 H2) as (_ & H & _).
  exact H.
Defined.

Lemma jacobian_is_undamaged_tangent_witness :
  Amor.spectral Example.compressive_solver Example.compressive_strain /\
  Tensor.contract4
    (AmorQp.Jacobian_mult
       (AmorQp.computeQpStress Example.compressive_solver (AmorQp.isotropic 1 1) 0
          Example.compressive_strain (1 / 2)))
    Example.compressive_strain
  = Tensor.add
      (Tensor.scale_l (1 * AmorQp.trace Example.compressive_strain) Tensor.identity)
      (Amor.stress0pos
         (AmorQp.var
            (AmorQp.computeQpStress Example.compressive_solver (AmorQp.isotropic 1 1) 0
               Example.compressive_strain (1 / 2)))).
Proof.
  assert (Hs : Amor.spectral Example.compressive_solver Example.compressive_strain).
  { unfold Amor.spectral. tensor_eq; lra. }
  split; [exact Hs |].
  exact (proj1 (jacobian_is_undamaged_tangent Example.compressive_solver 1 1 0
                  Example.compressive_strain (1 / 2) Hs)).
Defined.

(* ------------------------------------------------------------------ *)
(** ** ComputePolycrystalElasticityTensorCP                            *)
(* ------------------------------------------------------------------ *)

Section PolycrystalMore.
Import Tensor Polycrystal PolycrystalSums.

Variable invalid_id : N.
Variable getData : N -> RankFourTensor.
Variable getEuler : N -> RealVectorValue.
Variable RotationTensor : RealVectorValue -> RankTwoTensor.
Variable vals : nat -> R.
Variables (JtoeV length_scale pressure_scale : R).

Local Abbreviation compute :=
  (computeQpElasticityTensor invalid_id getData getEuler RotationTensor vals
     JtoeV length_scale pressure_scale).
Local Abbreviation wsum := (weight_sum invalid_id vals).
Local Abbreviation wsum_of := (weighted_sum invalid_id vals).

Lemma interpolation_bounds (v : R) : 0 <= interpolation v <= 1.
Proof.
  unfold interpolation. pose proof (SIN_bound (PI * (v - 1 / 2))). lra.
Qed.

Lemma weight_bounds (n : nat) (g : N) : 0 <= weight invalid_id vals n g <= 1.
Proof.
  unfold weight. destruct (N.eqb g invalid_id); [lra | apply interpolation_bounds].
Qed.

Lemma weight_sum_bounds (l : list N) (n : nat) : 0 <= wsum n l <= INR (length l).
Proof.
  revert n. induction l as [| g l IH]; intro n.
  - cbn. lra.
  - cbn [weight_sum length]. rewrite S_INR.
    pose proof (weight_bounds n g). specialize (IH (S n)). lra.
Qed.

(** The elasticity loop accumulates the weighted sums. *)
Lemma elasticity_fold (l : list N) (n : nat) (C : RankFourTensor) (s : R) :
  exists C',
    fold_left (fun st og =>
        let '(C, sum_h) := st in
        let '(op_index, grain_id) := og in
        if N.eqb grain_id invalid_id then st
        else
          let h := interpolation (vals op_index) in
          (add4 C (scale4 (getData grain_id) h), sum_h + h))
      (combine (seq n (length l)) l) (C, s)
    = (C', s + wsum n l) /\
    forall i j k m,
      C' i j k m = C i j k m + wsum_of (fun g => getData g i j k m) n l.
Proof.
  revert n C s. induction l as [| g l IH]; intros n C s.
  - exists C. cbn. split; [f_equal; lra | intros; lra].
  - cbn [length seq combine fold_left weight_sum weighted_sum]. unfold weight.
    destruct (N.eqb g invalid_id).
    + destruct (IH (S n) C s) as (C' & Hfold & HC). exists C'. split.
      * etransitivity; [exact Hfold | f_equal; lra].
      * intros. rewrite HC. lra.
    + destruct (IH (S n) (add4 C (scale4 (getData g) (interpolation (vals n))))
                  (s + interpolation (vals n))) as (C' & Hfold & HC).
      exists C'. split.
      * etransitivity; [exact Hfold | f_equal; lra].
      * intros. rewrite HC. unfold add4, scale4. lra.
Qed.

Lemma elasticity_loop_sums (l : list N) :
  snd (elasticity_loop invalid_id getData vals l) = wsum 0 l /\
  forall i j k m,
    fst (elasticity_loop invalid_id getData vals l) i j k m
    = wsum_of (fun g => getData g i j k m) 0 l.
Proof.
  destruct (elasticity_fold l 0 zero4 0) as (C' & Hfold & HC).
  assert (Heq : elasticity_loop invalid_id getData vals l = (C', 0 + wsum 0 l))
    by exact Hfold.
  rewrite Heq. cbn [fst snd]. split; [lra |].
  intros. rewrite HC. unfold zero4. lra.
Qed.

(** The Euler loop accumulates the same weights. *)
Lemma euler_fold (l : list N) (n : nat) (a : RealVectorValue) (s : R) :
  exists a',
    fold_left (fun st og =>
        let '(a2, sum_h) := st in
        let '(op_index_euler, grain_id_euler) := og in
        if N.eqb grain_id_euler invalid_id then st
        else
          let h := interpolation (vals op_index_euler) in
          (vadd a2 (vscale (getEuler grain_id_euler) h), sum_h + h))
      (combine (seq n (length l)) l) (a, s)
    = (a', s + wsum n l) /\
    forall i,
      component a' i = component a i + wsum_of (fun g => component (getEuler g) i) n l.
Proof.
  revert n a s. induction l as [| g l IH]; intros n a s.
  - exists a. cbn. split; [f_equal; lra | intros; lra].
  - cbn [length seq combine fold_left weight_sum weighted_sum]. unfold weight.
    destruct (N.eqb g invalid_id).
    + destruct (IH (S n) a s) as (a' & Hfold & Ha). exists a'. split.
      * etransitivity; [exact Hfold | f_equal; lra].
      * intros. rewrite Ha. lra.
    + destruct (IH (S n) (vadd a (vscale (getEuler g) (interpolation (vals n))))
                  (s + interpolation (vals n))) as (a' & Hfold & Ha).
      exists a'. split.
      * etransitivity; [exact Hfold | f_equal; lra].
      * intros i. rewrite Ha. destruct i; cbn; lra.
Qed.

Lemma euler_loop_sums (l : list N) :
  snd (euler_loop invalid_id getEuler vals l) = wsum 0 l /\
  forall i,
    component (fst (euler_loop invalid_id getEuler vals l)) i
    = wsum_of (fun g => component (getEuler g) i) 0 l.
Proof.
  destruct (euler_fold l 0 vzero 0) as (a' & Hfold & Ha).
  assert (Heq : euler_loop invalid_id getEuler vals l = (a', 0 + wsum 0 l))
    by exact Hfold.
  rewrite Heq. cbn [fst snd]. split; [lra |].
  intros i. rewrite Ha. destruct i; cbn; lra.
Qed.

(** A weighted sum of quantities between [L] and [U] lies between [L]
    and [U] times the sum of the weights. *)
Lemma weighted_sum_bounds (f : N -> R) (L U : R) (l : list N) (n : nat) :
  (forall g, In g l -> g <> invalid_id -> L <= f g <= U) ->
  L * wsum n l <= wsum_of f n l <= U * wsum n l.
Proof.
  revert n. induction l as [| g l IH]; intros n H.
  - cbn. lra.
  - cbn [weight_sum weighted_sum].
    assert (IH' := IH (S n) (fun g' Hin => H g' (or_intror Hin))).
    pose proof (weight_bounds n g) as Hw.
    unfold weight in *. destruct (N.eqb g invalid_id) eqn:Hg.
    + lra.
    + assert (Hne : g <> invalid_id) by (apply N.eqb_neq; exact Hg).
      pose proof (H g (or_introl eq_refl) Hne). nra.
Qed.

(** What [computeQpElasticityTensor] returns, in terms of the weighted
    sums. *)
Lemma compute_fields (l le : list N) :
  let r := compute l le in
  elasticity_divisor r = Rmax (wsum 0 l) tol /\
  (forall i j k m,
     elasticity_tensor r i j k m
     = wsum_of (fun g => getData g i j k m) 0 l / Rmax (wsum 0 l) tol) /\
  euler_divisor r = Rmax (wsum 0 le) tol /\
  (forall i,
     component (angle2 r) i
     = wsum_of (fun g => component (getEuler g) i) 0 le / Rmax (wsum 0 le) tol) /\
  crysrot r = transpose (RotationTensor (angle2 r)) /\
  D_elastic_tensor r
  = derivative_loop invalid_id getData vals JtoeV length_scale pressure_scale l
      (elasticity_tensor r) (euler_divisor r).
Proof.
  cbv zeta. unfold computeQpElasticityTensor.
  destruct (elasticity_loop_sums l) as [Hs HC].
  destruct (euler_loop_sums le) as [Hs' Ha].
  destruct (elasticity_loop invalid_id getData vals l) as [C s].
  destruct (euler_loop invalid_id getEuler vals le) as [a s'].
  cbn [fst snd] in *. subst s s'.
  cbn [elasticity_divisor elasticity_tensor euler_divisor angle2 crysrot D_elastic_tensor].
  repeat split.
  - intros. unfold div4. now rewrite HC.
  - intros i. rewrite <- Ha. destruct i; reflexivity.
Qed.

Lemma clamp_pos (x : R) : 0 < Rmax x tol.
Proof. pose proof tol_pos. pose proof (Rmax_r x tol). lra. Qed.

(** The derivative loop writes entry [op] exactly when the feature
    vector holds a valid grain at [op]. *)
Lemma derivative_fold (Cqp : RankFourTensor) (sum_h : R) (l : list N) (n : nat)
    (D : nat -> RankFourTensor) (op : nat) :
  fold_left (fun D og =>
      let '(op_index, grain_id) := og in
      if N.eqb grain_id invalid_id then D
      else
        let dhdopi := dinterpolation (vals op_index) in
        let C_deriv := div4 (scale4 (sub4 (getData grain_id) Cqp) dhdopi) sum_h in
        let C_deriv :=
          scale4 C_deriv (JtoeV * (length_scale * length_scale * length_scale) * pressure_scale) in
        fun op => if Nat.eqb op op_index then C_deriv else D op)
    (combine (seq n (length l)) l) D op
  = match (if (n <=? op)%nat then nth_error l (op - n) else None) with
    | Some g =>
      if N.eqb g invalid_id then D op
      else scale4 (div4 (scale4 (sub4 (getData g) Cqp) (dinterpolation (vals op))) sum_h)
                  (JtoeV * (length_scale * length_scale * length_scale) * pressure_scale)
    | None => D op
    end.
Proof.
  revert n D. induction l as [| g l IH]; intros n D.
  - cbn [length seq combine fold_left].
    destruct (n <=? op)%nat; [destruct (op - n)%nat |]; reflexivity.
  - cbn [length seq combine fold_left].
    etransitivity; [apply IH |].
    destruct (Nat.leb_spec (S n) op) as [Hlt | Hge].
    + (* op beyond n: the entry is decided by the rest *)
      assert (Hle : (n <=? op)%nat = true) by (apply Nat.leb_le; lia).
      rewrite Hle.
      replace (op - n)%nat with (S (op - S n)) by lia. cbn [nth_error].
      assert (Hne : Nat.eqb op n = false) by (apply Nat.eqb_neq; lia).
      destruct (nth_error l (op - S n)) as [g' |].
      * destruct (N.eqb g' invalid_id); [| reflexivity].
        destruct (N.eqb g invalid_id); [reflexivity | now rewrite Hne].
      * destruct (N.eqb g invalid_id); [reflexivity | now rewrite Hne].
    + destruct (Nat.eq_dec op n) as [-> | Hne].
      * rewrite Nat.leb_refl, Nat.sub_diag. cbn [nth_error].
        destruct (N.eqb g invalid_id); [reflexivity | now rewrite Nat.eqb_refl].
      * assert (Hle : (n <=? op)%nat = false) by (apply Nat.leb_gt; lia).
        rewrite Hle.
        assert (Hneb : Nat.eqb op n = false) by (apply Nat.eqb_neq; exact Hne).
        destruct (N.eqb g invalid_id); [reflexivity | now rewrite Hneb].
Qed.

(** X7. The interpolation factor [h] is a weight: it lies between 0 and 1 for
    every order-parameter value, is 0 at 0, 1/2 at 1/2 and 1 at 1. *)
Theorem interpolation_is_weight (v : R) :
  0 <= interpolation v <= 1 /\
  interpolation 0 = 0 /\ interpolation (1 / 2) = 1 / 2 /\ interpolation 1 = 1.
Proof.
  split; [apply interpolation_bounds |]. unfold interpolation. repeat split.
  - replace (PI * (0 - 1 / 2)) with (- (PI / 2)) by lra.
    rewrite sin_neg, sin_PI2. lra.
  - replace (PI * (1 / 2 - 1 / 2)) with 0 by lra. rewrite sin_0. lra.
  - replace (PI * (1 - 1 / 2)) with (PI / 2) by lra. rewrite sin_PI2. lra.
Qed.

(** X8. [dhdopi] of the derivative loop is the exact derivative of the
    interpolation factor [h] of the accumulation loops. *)
Theorem dinterpolation_is_derivative (v : R) :
  derivable_pt_lim interpolation v (dinterpolation v).
Proof.
  unfold dinterpolation.
  apply derivable_pt_lim_eq
    with (g := mult_real_fct (1 / 2)
                 (plus_fct (fct_cte 1) (comp sin (mult_fct (fct_cte PI) (minus_fct id (fct_cte (1 / 2))))))).
  - intro y. unfold interpolation, mult_real_fct, plus_fct, fct_cte, comp, mult_fct,
      minus_fct, id. lra.
  - replace (PI * cos (PI * (v - 1 / 2)) / 2)
      with (1 / 2 * (0 + cos (PI * (v - 1 / 2)) * (0 * (v - 1 / 2) + PI * (1 - 0))))
      by lra.
    apply derivable_pt_lim_scal.
    apply derivable_pt_lim_plus; [apply derivable_pt_lim_const |].
    apply (derivable_pt_lim_comp
             (mult_fct (fct_cte PI) (minus_fct id (fct_cte (1 / 2)))) sin).
    + apply (derivable_pt_lim_mult (fct_cte PI) (minus_fct id (fct_cte (1 / 2)))).
      * apply derivable_pt_lim_const.
      * apply derivable_pt_lim_minus;
          [apply derivable_pt_lim_id | apply derivable_pt_lim_const].
    + unfold mult_fct, fct_cte, minus_fct, id. apply derivable_pt_lim_sin.
Qed.

(** X9. The accumulated weight [sum_h] of either loop lies between 0 and the
    number of order parameters, so each divisor lies between [tol] and
    that number (or [tol] if larger). *)
Theorem sum_h_bounds (l le : list N) :
  let r := compute l le in
  0 <= snd (elasticity_loop invalid_id getData vals l) <= INR (length l) /\
  0 <= snd (euler_loop invalid_id getEuler vals le) <= INR (length le) /\
  tol <= elasticity_divisor r <= Rmax (INR (length l)) tol /\
  tol <= euler_divisor r <= Rmax (INR (length le)) tol.
Proof.
  cbv zeta.
  destruct (elasticity_loop_sums l) as [-> _]. destruct (euler_loop_sums le) as [-> _].
  destruct (compute_fields l le) as (-> & _ & -> & _).
  pose proof (weight_sum_bounds l 0). pose proof (weight_sum_bounds le 0).
  repeat split; try lra; try apply Rmax_r.
  - apply Rle_max_compat_r. lra.
  - apply Rle_max_compat_r. lra.
Qed.

(** X10. When both grain trackers report the same feature vector, the two
    loops accumulate the same weight and the two divisors are equal. *)
Theorem divisors_agree (l : list N) :
  snd (euler_loop invalid_id getEuler vals l)
    = snd (elasticity_loop invalid_id getData vals l) /\
  euler_divisor (compute l l) = elasticity_divisor (compute l l).
Proof.
  destruct (elasticity_loop_sums l) as [-> _]. destruct (euler_loop_sums l) as [-> _].
  destruct (compute_fields l l) as (-> & _ & -> & _). split; reflexivity.
Qed.

(** X11. Once the accumulated weight reaches [tol], every entry of the
    interpolated elasticity tensor lies between the smallest and the
    largest corresponding entry of the valid grains: the result is a
    weighted average. *)
Theorem elasticity_tensor_weighted_average
    (l le : list N) (i j k m : Dim) (L U : R) :
  tol <= snd (elasticity_loop invalid_id getData vals l) ->
  (forall g, In g l -> g <> invalid_id -> L <= getData g i j k m <= U) ->
  L <= elasticity_tensor (compute l le) i j k m <= U.
Proof.
  intros Htol Hg.
  destruct (elasticity_loop_sums l) as [Hs _]. rewrite Hs in Htol.
  destruct (compute_fields l le) as (_ & -> & _).
  rewrite Rmax_left by exact Htol.
  pose proof (weighted_sum_bounds (fun g => getData g i j k m) L U l 0 Hg) as Hb.
  pose proof tol_pos as Ht.
  assert (Hpos : 0 < wsum 0 l) by lra.
  split.
  - apply (Rmult_le_reg_r (wsum 0 l)); [exact Hpos |].
    unfold Rdiv. rewrite Rmult_assoc, Rinv_l by lra. lra.
  - apply (Rmult_le_reg_r (wsum 0 l)); [exact Hpos |].
    unfold Rdiv. rewrite Rmult_assoc, Rinv_l by lra. lra.
Qed.

(** X12. When every valid grain carries the same entry [x], the interpolated
    entry is [x] times [sum_h / max(sum_h, tol)]: exactly [x] once the
    accumulated weight reaches [tol], and scaled down by [sum_h / tol]
    below it. *)
Theorem elasticity_tensor_single_phase
    (l le : list N) (i j k m : Dim) (x : R) :
  (forall g, In g l -> g <> invalid_id -> getData g i j k m = x) ->
  let sum_h := snd (elasticity_loop invalid_id getData vals l) in
  elasticity_tensor (compute l le) i j k m = x * (sum_h / Rmax sum_h tol) /\
  (tol <= sum_h -> elasticity_tensor (compute l le) i j k m = x) /\
  (sum_h <= tol -> elasticity_tensor (compute l le) i j k m = x * (sum_h / tol)).
Proof.
  intros Hg. cbv zeta.
  destruct (elasticity_loop_sums l) as [-> _].
  destruct (compute_fields l le) as (_ & -> & _).
  assert (Hb : wsum_of (fun g => getData g i j k m) 0 l = x * wsum 0 l).
  { pose proof (weighted_sum_bounds (fun g => getData g i j k m) x x l 0) as Hb.
    assert (Hx : forall g, In g l -> g <> invalid_id -> x <= getData g i j k m <= x).
    { intros g Hin Hne. rewrite (Hg g Hin Hne). lra. }
    specialize (Hb Hx). lra. }
  rewrite Hb. pose proof tol_pos as Ht. repeat split.
  - unfold Rdiv. ring.
  - intro Htol. rewrite Rmax_left by exact Htol. field. lra.
  - intro Htol. rewrite Rmax_right by exact Htol. unfold Rdiv. ring.
Qed.

(** X13. When every valid grain of the Euler feature vector carries the same
    Euler angles and the accumulated weight reaches [tol], the averaged
    angles are those angles and [crysrot] is the transposed rotation
    built from them. *)
Theorem crysrot_single_grain (l le : list N) (angles : RealVectorValue) :
  tol <= snd (euler_loop invalid_id getEuler vals le) ->
  (forall g, In g le -> g <> invalid_id -> getEuler g = angles) ->
  angle2 (compute l le) = angles /\
  crysrot (compute l le) = transpose (RotationTensor angles).
Proof.
  intros Htol Hg.
  destruct (euler_loop_sums le) as [Hs _]. rewrite Hs in Htol.
  destruct (compute_fields l le) as (_ & _ & _ & Ha & Hrot & _).
  assert (Hangle : angle2 (compute l le) = angles).
  { apply vec_ext. intro i. rewrite Ha. rewrite Rmax_left by exact Htol.
    pose proof (weighted_sum_bounds (fun g => component (getEuler g) i)
                  (component angles i) (component angles i) le 0) as Hb.
    assert (Hx : forall g, In g le -> g <> invalid_id ->
                 component angles i <= component (getEuler g) i <= component angles i).
    { intros g Hin Hne. rewrite (Hg g Hin Hne). lra. }
    specialize (Hb Hx). pose proof tol_pos as Ht.
    replace (wsum_of (fun g => component (getEuler g) i) 0 le)
      with (component angles i * wsum 0 le) by lra.
    field. lra. }
  split; [exact Hangle |]. rewrite Hrot, Hangle. reflexivity.
Qed.

(** X14. An element without any valid grain id gets a zero elasticity tensor,
    zero Euler angles and zero derivatives. *)
Theorem no_valid_grain_outputs (l le : list N) :
  Forall (fun g => g = invalid_id) l ->
  Forall (fun g => g = invalid_id) le ->
  let r := compute l le in
  (forall i j k m, elasticity_tensor r i j k m = 0) /\
  angle2 r = vzero /\
  crysrot r = transpose (RotationTensor vzero) /\
  (forall op i j k m, D_elastic_tensor r op i j k m = 0).
Proof.
  intros Hl Hle. cbv zeta.
  destruct (compute_fields l le) as (_ & _ & _ & _ & Hrot & HD).
  unfold computeQpElasticityTensor in *.
  rewrite (elasticity_loop_all_invalid invalid_id getData vals l Hl) in *.
  rewrite (euler_loop_all_invalid invalid_id getEuler vals le Hle) in *.
  cbn [elasticity_tensor angle2 crysrot D_elastic_tensor euler_divisor] in *.
  assert (Hz : vdiv vzero (Rmax 0 tol) = vzero).
  { apply vec_ext. intros []; cbn; unfold Rdiv; ring. }
  repeat split.
  - intros. unfold div4, zero4, Rdiv. ring.
  - exact Hz.
  - now rewrite Hz.
  - intros op i j k m. unfold derivative_loop, indexed.
    rewrite derivative_fold. cbn [Nat.leb]. rewrite Nat.sub_0_r.
    destruct (nth_error l op) as [g |] eqn:Hnth; [| reflexivity].
    apply nth_error_In in Hnth. rewrite Forall_forall in Hl.
    rewrite (Hl g Hnth), N.eqb_refl. reflexivity.
Qed.

(** X15. The derivative property of order parameter [op] is written only when
    the feature vector holds a valid grain at position [op]; it is then
    the difference between that grain's tensor and the interpolated
    tensor, times [dhdopi] and the unit conversion, divided by the weight
    sum of the Euler loop; otherwise it stays zero. *)
Theorem D_elastic_tensor_entries (l le : list N) (op : nat) :
  let r := compute l le in
  D_elastic_tensor r op
  = match nth_error l op with
    | Some g =>
      if N.eqb g invalid_id then zero4
      else scale4 (div4 (scale4 (sub4 (getData g) (elasticity_tensor r))
                                (dinterpolation (vals op)))
                        (euler_divisor r))
                  (JtoeV * (length_scale * length_scale * length_scale) * pressure_scale)
    | None => zero4
    end.
Proof.
  cbv zeta. destruct (compute_fields l le) as (_ & _ & _ & _ & _ & ->).
  unfold derivative_loop, indexed. rewrite derivative_fold.
  cbn [Nat.leb]. rewrite Nat.sub_0_r. reflexivity.
Qed.

End PolycrystalMore.

Section ExampleGrainsFacts.
Import Tensor Polycrystal PolycrystalSums ExampleGrains.

Lemma interpolation_one : interpolation 1 = 1.
Proof.
  unfold interpolation.
  replace (PI * (1 - 1 / 2)) with (PI / 2) by lra. rewrite sin_PI2. lra.
Qed.

Lemma tol_le_one : tol <= 1.
Proof.
  unfold tol.
  apply (Rmult_le_reg_r (10 ^ 10)); [apply pow_lt; lra |].
  unfold Rdiv. rewrite Rmult_assoc, Rinv_l by (apply pow_nonzero; lra).
  rewrite Rmult_1_r, Rmult_1_l. apply pow_R1_Rle. lra.
Qed.

Lemma example_weight : weight_sum invalid order_parameters 0 grains = 1.
Proof.
  unfold grains. cbn [weight_sum]. unfold weight, invalid, order_parameters.
  cbn [N.eqb Pos.eqb]. rewrite interpolation_one. lra.
Qed.

Lemma example_sum_h : tol <= snd (elasticity_loop invalid data order_parameters grains).
Proof.
  destruct (elasticity_loop_sums invalid data order_parameters grains) as [-> _].
  rewrite example_weight. apply tol_le_one.
Qed.

Lemma example_sum_h_euler : tol <= snd (euler_loop invalid euler order_parameters grains).
Proof.
  destruct (euler_loop_sums invalid euler order_parameters grains) as [-> _].
  rewrite example_weight. apply tol_le_one.
Qed.

Lemma example_all_invalid : Forall (fun g => g = invalid) [7%N; 7%N].
Proof. repeat constructor. Qed.

End ExampleGrainsFacts.

Lemma elasticity_tensor_weighted_average_witness :
  Polycrystal.tol
    <= snd (Polycrystal.elasticity_loop ExampleGrains.invalid ExampleGrains.data
              ExampleGrains.order_parameters ExampleGrains.grains) /\
  5 <= Polycrystal.elasticity_tensor ExampleGrains.qp Tensor.D0 Tensor.D0 Tensor.D0 Tensor.D0
    <= 5.
Proof.
  split; [exact example_sum_h |].
  apply (elasticity_tensor_weighted_average ExampleGrains.invalid ExampleGrains.data
           ExampleGrains.euler ExampleGrains.rotation ExampleGrains.order_parameters
           1 1 1 ExampleGrains.grains ExampleGrains.grains
           Tensor.D0 Tensor.D0 Tensor.D0 Tensor.D0 5 5 example_sum_h).
  intros g _ _. unfold ExampleGrains.data. lra.
Defined.

Lemma elasticity_tensor_single_phase_witness :
  Polycrystal.elasticity_tensor ExampleGrains.qp Tensor.D0 Tensor.D1 Tensor.D0 Tensor.D1 = 5.
Proof.
  assert (Hg : forall g, In g ExampleGrains.grains -> g <> ExampleGrains.invalid ->
                         ExampleGrains.data g Tensor.D0 Tensor.D1 Tensor.D0 Tensor.D1 = 5)
    by reflexivity.
  destruct (elasticity_tensor_single_phase ExampleGrains.invalid ExampleGrains.data
              ExampleGrains.euler ExampleGrains.rotation ExampleGrains.order_parameters
              1 1 1 ExampleGrains.grains ExampleGrains.grains
              Tensor.D0 Tensor.D1 Tensor.D0 Tensor.D1 5 Hg) as (_ & H & _).
  exact (H example_sum_h).
Defined.

Lemma crysrot_single_grain_witness :
  Polycrystal.angle2 ExampleGrains.qp = Tensor.vec 1 2 3 /\
  Polycrystal.crysrot ExampleGrains.qp = Tensor.transpose Tensor.identity.
Proof.
  apply (crysrot_single_grain ExampleGrains.invalid ExampleGrains.data
           ExampleGrains.euler ExampleGrains.rotation ExampleGrains.order_parameters
           1 1 1 ExampleGrains.grains ExampleGrains.grains (Tensor.vec 1 2 3)
           example_sum_h_euler).
  reflexivity.
Defined.

Lemma no_valid_grain_outputs_witness :
  Polycrystal.elasticity_tensor ExampleGrains.qp_empty Tensor.D0 Tensor.D0 Tensor.D0 Tensor.D0
    = 0 /\
  Polycrystal.angle2 ExampleGrains.qp_empty = Tensor.vzero.
Proof.
  destruct (no_valid_grain_outputs ExampleGrains.invalid ExampleGrains.data
              ExampleGrains.euler ExampleGrains.rotation ExampleGrains.order_parameters
              1 1 1 [7%N; 7%N] [7%N; 7%N] example_all_invalid example_all_invalid)
    as (HC & Ha & _).
  split; [apply HC | exact Ha].
Defined.
